(** * agent_town: the action executor and the control loop that feeds it

    A shallow embedding of [ActionChains] and the four [Action] classes
    (actions.ts, the second file of src/index.ts), of the control loop
    [AiBot.act] / [AiBot.addAction] that drives them
    (src/unnamed/part_001), and of the two older loops, src/bot.ts and
    agent.ts (src/unnamed/part_000), where a property is compared across
    the variants.

    The program is asynchronous JavaScript.  Every [async] function is
    embedded as a coroutine: the part of its body up to the next [await]
    on the outside world is a function on [State]; what is left of the
    body is a [Task] kept in the state until an [Event] of the game
    client (mineflayer) or of the planner (Vertex AI) wakes it.
    Continuations woken by one event run one after the other, in the
    order in which they started to wait, each up to its next wait.

    Of the game client the embedding keeps what the program reads or
    sets: the pathfinder's goal (dropped when it is reached or stopped),
    the entities, the inventory, the blocks, and whether the pathfinder
    raises on a directive. *)

From Stdlib Require Import List ZArith QArith String Bool Arith Lia DecimalString.
Import ListNotations.
Local Close Scope Q_scope.
Local Open Scope string_scope.
Local Open Scope list_scope.

(** ** JavaScript values that cross the planner boundary ([args: any])

    Numbers are coordinates and entity ids: the program stores them,
    compares them, prints them and uses them as keys, and never computes
    with them; integers stand for them. *)

Inductive JsValue : Type :=
| JsUndefined
| JsNumber (n : Z)
| JsString (s : string).

(** [a === b] *)
Definition strictEq (a b : JsValue) : bool :=
  match a, b with
  | JsUndefined, JsUndefined => true
  | JsNumber n, JsNumber m => Z.eqb n m
  | JsString s, JsString t => String.eqb s t
  | _, _ => false
  end.

(** The key under which [o[v]] looks a property up. *)
Definition propertyKey (v : JsValue) : string :=
  match v with
  | JsUndefined => "undefined"
  | JsNumber n => NilZero.string_of_int (Z.to_int n)
  | JsString s => s
  end.

(** An object literal with value properties, in source order. *)
Definition Obj : Type := list (string * JsValue).

(** [o.k], [undefined] when the property is absent. *)
Fixpoint prop (k : string) (o : Obj) : JsValue :=
  match o with
  | [] => JsUndefined
  | (k', v) :: o' => if String.eqb k k' then v else prop k o'
  end.

(** ** The four action classes, as data *)

Inductive Action : Type :=
| MoveToPosition (x y z : JsValue)
| Eat (itemName : JsValue)
| FollowAndAttack (entityId : JsValue)
| DigBlock (x y z : JsValue).

(** An action object: the fields of the class instance and its identity
    (two [new] expressions never give the same object). *)
Record ActionObj : Type := { oid : nat; fields : Action }.

(** What [toJSON] returns: [{ action: ..., args: {...} }]. *)
Record Described : Type := { action : string; args : Obj }.

(** ** The actuator (mineflayer bot with the pathfinder plugin)

    Only what the embedded code reads or sets. *)

Inductive Goal : Type :=
| GoalNear (x y z : JsValue) (range : Q)
| GoalFollow (entity : Z) (range : Q).

Inductive Error : Type :=
| MoveTimeout                         (* new Error("Move timeout") *)
| ItemNotFound (itemName : JsValue)   (* `Item ${itemName} not found in inventory` *)
| EntityNotFound (entityId : JsValue) (* `Entity ${entityId} not found` *)
| Foreign (message : string).         (* raised by the game client or the planner *)

Record Bot : Type := {
  goal : option Goal;                       (* bot.pathfinder.goal *)
  entities : list Z;                        (* ids of bot.entities, all valid *)
  inventory : list string;                  (* names of bot.inventory.items() *)
  blocks : list (JsValue * JsValue * JsValue); (* where bot.blockAt finds a block *)
  fault : option string                     (* the pathfinder raises on any directive *)
}.

Definition with_goal (g : option Goal) (b : Bot) : Bot :=
  {| goal := g; entities := entities b; inventory := inventory b;
     blocks := blocks b; fault := fault b |}.

(** [bot.pathfinder.setGoal(g)] *)
Definition setGoal (g : option Goal) (b : Bot) : Error + Bot :=
  match fault b with
  | Some m => inl (Foreign m)
  | None => inr (with_goal g b)
  end.

(** [bot.pathfinder.stop()]: the pathfinder gives its goal up. *)
Definition stop (b : Bot) : Error + Bot := setGoal None b.

(** [bot.entities[id]], as the id of the entity found. *)
Definition entityAt (id : JsValue) (b : Bot) : option Z :=
  find (fun e => String.eqb (propertyKey (JsNumber e)) (propertyKey id))
       (entities b).

(** [bot.inventory.items().find((i) => i.name === itemName)] *)
Definition findItem (itemName : JsValue) (b : Bot) : option string :=
  find (fun n => strictEq (JsString n) itemName) (inventory b).

(** [bot.blockAt(new Vec3(x, y, z))] is not null. *)
Definition blockAt (x y z : JsValue) (b : Bot) : bool :=
  existsb (fun p => match p with
                    | (x', y', z') => strictEq x x' && strictEq y y' && strictEq z z'
                    end) (blocks b).

(** ** What the program writes: chat lines and console lines *)

Inductive Line : Type :=
| MovingTo (x y z : JsValue)
| Eating (itemName : JsValue)
| CannotEat (itemName : JsValue)
| FollowingAndAttacking (entityId : JsValue)
| CannotFindEntity (entityId : JsValue)
| CannotFollowAndAttack (entityId : JsValue)
| DiggingBlockAt (x y z : JsValue)
| NoActionsToPerform
| Starting (n : nat)
| Failed (a : Described) (e : Error)
| FailedToCancel (a : Described) (e : Error)
| Scanned
| StatusSummary
| CurrentActions (pending : list Described)
| AddingAction (name : string) (a : Obj)
| UnknownToolCall (name : string).

Inductive Output : Type :=
| Chat (l : Line)      (* bot.chat(...) *)
| Console (l : Line).  (* console.log(...) *)

(** ** The planner's answer *)

Record FunctionCall : Type := { name : string; fargs : Obj }.

(** [part.functionCall], [cand?.content?.parts], [resp.response.candidates];
    [None] where the field is absent. *)
Definition Part : Type := option FunctionCall.
Definition Candidate : Type := option (list Part).
Definition Response : Type := option (list Candidate).

(** ** Suspended coroutines *)

(** Where the body of an [act()] waits. *)
Inductive ActWait : Type :=
| OnGoalReached (ms : Z)   (* once("goal_reached") raced with setTimeout(reject, ms) *)
| OnEquip                  (* await bot.equip(item, "hand") *)
| OnConsume                (* await bot.consume() *)
| OnAttackTick (entity : Z) (listener : nat)
                           (* the promise that only this attackTick resolves *)
| OnDig                    (* await bot.dig(block) *)
| Orphaned.                (* attackTick was removed: nothing can settle the promise *)

(** Who awaits [reset()]. *)
Inductive Caller : Type :=
| CatchOfStart                          (* start(): await this.reset(); break *)
| CycleOfAct (resp : Response).         (* AiBot.act, with the answer in hand *)

Inductive Task : Type :=
| AwaitAct (o : ActionObj) (w : ActWait)  (* start() at [await action.act()] *)
| AwaitCancel (o : ActionObj) (k : Caller)
     (* reset() at [await action.cancel()], cancel() waiting for "path_reset" *)
| AwaitPlanner (pending : list Described) (* act() at [await generateContent] *)
| AwaitTimer (ms : Z).                    (* setTimeout(() => this.act(), ms) *)

Record ActionChains : Type := {
  actions : list ActionObj;
  currentActionIndex : nat
}.

Record State : Type := {
  bot : Bot;
  output : list Output;             (* oldest first *)
  chains : ActionChains;            (* AiBot's [this.actions] *)
  tasks : list (nat * Task);        (* oldest first *)
  attackTick : list (nat * nat);    (* FollowAndAttackAction object |-> the
                                       listener its [attackTick] field holds *)
  nextId : nat                      (* fresh object and task identities *)
}.

Definition set_bot (b : Bot) (s : State) : State :=
  {| bot := b; output := output s; chains := chains s; tasks := tasks s;
     attackTick := attackTick s; nextId := nextId s |}.

Definition say (ls : list Output) (s : State) : State :=
  {| bot := bot s; output := output s ++ ls; chains := chains s;
     tasks := tasks s; attackTick := attackTick s; nextId := nextId s |}.

Definition set_chains (c : ActionChains) (s : State) : State :=
  {| bot := bot s; output := output s; chains := c; tasks := tasks s;
     attackTick := attackTick s; nextId := nextId s |}.

Definition set_tasks (ts : list (nat * Task)) (s : State) : State :=
  {| bot := bot s; output := output s; chains := chains s; tasks := ts;
     attackTick := attackTick s; nextId := nextId s |}.

(** A coroutine starts to wait: it gets a fresh identity. *)
Definition spawn (k : Task) (s : State) : State :=
  {| bot := bot s; output := output s; chains := chains s;
     tasks := tasks s ++ [(nextId s, k)];
     attackTick := attackTick s; nextId := S (nextId s) |}.

(** A coroutine that was woken waits again, under the identity it had. *)
Definition park (t : nat) (k : Task) (s : State) : State :=
  set_tasks (tasks s ++ [(t, k)]) s.

(** How far an [async] body got before it had to wait for the world. *)
Inductive Began : Type :=
| Threw (e : Error) (s : State)
| Suspended (w : ActWait) (s : State).

Inductive Cancelled : Type :=
| CancelReturned (s : State)
| CancelThrew (e : Error) (s : State)
| CancelSuspended (s : State).      (* waiting for "path_reset" *)

(** A promise the body awaited has settled. *)
Inductive Signal : Type :=
| Resolved
| Rejected (e : Error).

Inductive Continued : Type :=
| ActFulfilled (s : State)
| ActRejected (e : Error) (s : State)
| ActPending (w : ActWait) (s : State).

(** ** actions.ts: the action classes (src/index.ts, lines 92-348)

    [act] is the body of the method up to its first wait, [resume] what it
    does when the promise it waits for settles, [cancel] the body of
    [cancel()] up to its wait for "path_reset". *)

Module MoveToPositionAction.
Definition APPROACH_RANGE : Q := 1.
Definition MOVE_TIMEOUT : Z := 30000.

Definition act (x y z : JsValue) (s : State) : Began :=
  let s1 := say [Chat (MovingTo x y z)] s in
  match setGoal (Some (GoalNear x y z APPROACH_RANGE)) (bot s1) with
  | inl e => Threw e s1
  | inr b => Suspended (OnGoalReached MOVE_TIMEOUT) (set_bot b s1)
  end.

Definition resume (sig : Signal) (s : State) : Continued :=
  match sig with
  | Resolved => ActFulfilled s
  | Rejected e => ActRejected e s
  end.

Definition cancel (s : State) : Cancelled :=
  match goal (bot s) with
  | Some _ =>
      match setGoal None (bot s) with
      | inl e => CancelThrew e s
      | inr b => CancelSuspended (set_bot b s)
      end
  | None => CancelReturned s
  end.

Definition toJSON (x y z : JsValue) : Described :=
  {| action := "move_to_position"; args := [("x", x); ("y", y); ("z", z)] |}.
End MoveToPositionAction.

Module EatAction.
Definition act (itemName : JsValue) (s : State) : Began :=
  let s1 := say [Chat (Eating itemName)] s in
  match findItem itemName (bot s1) with
  | Some _ => Suspended OnEquip (say [Console (Eating itemName)] s1)
  | None =>
      Threw (ItemNotFound itemName) (say [Console (CannotEat itemName)] s1)
  end.

Definition resume (w : ActWait) (sig : Signal) (s : State) : Continued :=
  match sig with
  | Rejected e => ActRejected e s
  | Resolved =>
      match w with
      | OnEquip => ActPending OnConsume s  (* await this.bot.consume() *)
      | _ => ActFulfilled s
      end
  end.

(** "Eating cannot be cancelled" *)
Definition cancel (s : State) : Cancelled := CancelReturned s.

Definition toJSON (itemName : JsValue) : Described :=
  {| action := "eat"; args := [("itemName", itemName)] |}.
End EatAction.

(** [bot.removeListener("physicsTick", l)] *)
Definition removeListener (l : nat) (s : State) : State :=
  set_tasks
    (map (fun tk =>
            match tk with
            | (t, AwaitAct o (OnAttackTick e l')) =>
                if Nat.eqb l l' then (t, AwaitAct o Orphaned) else tk
            | _ => tk
            end) (tasks s)) s.

Fixpoint lookup (k : nat) (m : list (nat * nat)) : option nat :=
  match m with
  | [] => None
  | (k', v) :: m' => if Nat.eqb k k' then Some v else lookup k m'
  end.

Module FollowAndAttackAction.
Definition FOLLOW_DISTANCE : Q := 1.
Definition ATTACK_RANGE : Q := 3.

(** [this.attackTick = () => {...}; this.bot.on("physicsTick", this.attackTick)] *)
Definition listen (self : nat) (s : State) : State :=
  {| bot := bot s; output := output s; chains := chains s; tasks := tasks s;
     attackTick := (self, nextId s) :: attackTick s; nextId := S (nextId s) |}.

Definition act (self : nat) (entityId : JsValue) (s : State) : Began :=
  let s1 := say [Chat (FollowingAndAttacking entityId)] s in
  match entityAt entityId (bot s1) with
  | Some e =>
      let s2 := say [Console (FollowingAndAttacking entityId)] s1 in
      match setGoal (Some (GoalFollow e FOLLOW_DISTANCE)) (bot s2) with
      | inl err => Threw err s2
      | inr b =>
          let s3 := set_bot b s2 in
          Suspended (OnAttackTick e (nextId s3)) (listen self s3)
      end
  | None =>
      Threw (EntityNotFound entityId)
            (say [Console (CannotFindEntity entityId)] s1)
  end.

Definition resume (sig : Signal) (s : State) : Continued :=
  match sig with
  | Resolved => ActFulfilled s
  | Rejected e => ActRejected e s
  end.

Definition cancel (self : nat) (s : State) : Cancelled :=
  let s1 := match lookup self (attackTick s) with
            | Some l => removeListener l s
            | None => s      (* the field still holds the initial () => {} *)
            end in
  match goal (bot s1) with
  | Some _ =>
      match stop (bot s1) with
      | inl e => CancelThrew e s1
      | inr b => CancelSuspended (set_bot b s1)
      end
  | None => CancelReturned s1
  end.

Definition toJSON (entityId : JsValue) : Described :=
  {| action := "follow_and_attack"; args := [("entityId", entityId)] |}.
End FollowAndAttackAction.

Module DigBlockAction.
Definition APPROACH_RANGE : Q := 4.
Definition MOVE_TIMEOUT : Z := 30000.

Definition act (x y z : JsValue) (s : State) : Began :=
  let s1 := say [Chat (DiggingBlockAt x y z)] s in
  match setGoal (Some (GoalNear x y z APPROACH_RANGE)) (bot s1) with
  | inl e => Threw e s1
  | inr b => Suspended (OnGoalReached MOVE_TIMEOUT) (set_bot b s1)
  end.

Definition resume (x y z : JsValue) (w : ActWait) (sig : Signal) (s : State)
  : Continued :=
  match sig with
  | Rejected e => ActRejected e s
  | Resolved =>
      match w with
      | OnGoalReached _ =>
          if blockAt x y z (bot s)
          then ActPending OnDig s          (* await this.bot.dig(block) *)
          else ActFulfilled s              (* the last statement only reads
                                              the item registry *)
      | _ => ActFulfilled s
      end
  end.

(** [this.bot.stopDigging()] changes nothing that is modelled here. *)
Definition cancel (s : State) : Cancelled :=
  match goal (bot s) with
  | Some _ =>
      match setGoal None (bot s) with
      | inl e => CancelThrew e s
      | inr b => CancelSuspended (set_bot b s)
      end
  | None => CancelReturned s
  end.

Definition toJSON (x y z : JsValue) : Described :=
  {| action := "dig_block"; args := [("x", x); ("y", y); ("z", z)] |}.
End DigBlockAction.

(** *** [interface Action]: dispatch on the class of the object *)

Definition Action_act (o : ActionObj) (s : State) : Began :=
  match fields o with
  | MoveToPosition x y z => MoveToPositionAction.act x y z s
  | Eat itemName => EatAction.act itemName s
  | FollowAndAttack entityId => FollowAndAttackAction.act (oid o) entityId s
  | DigBlock x y z => DigBlockAction.act x y z s
  end.

Definition Action_resume (o : ActionObj) (w : ActWait) (sig : Signal) (s : State)
  : Continued :=
  match fields o with
  | MoveToPosition _ _ _ => MoveToPositionAction.resume sig s
  | Eat _ => EatAction.resume w sig s
  | FollowAndAttack _ => FollowAndAttackAction.resume sig s
  | DigBlock x y z => DigBlockAction.resume x y z w sig s
  end.

Definition Action_cancel (o : ActionObj) (s : State) : Cancelled :=
  match fields o with
  | MoveToPosition _ _ _ => MoveToPositionAction.cancel s
  | Eat _ => EatAction.cancel s
  | FollowAndAttack _ => FollowAndAttackAction.cancel (oid o) s
  | DigBlock _ _ _ => DigBlockAction.cancel s
  end.

Definition describe (a : Action) : Described :=
  match a with
  | MoveToPosition x y z => MoveToPositionAction.toJSON x y z
  | Eat itemName => EatAction.toJSON itemName
  | FollowAndAttack entityId => FollowAndAttackAction.toJSON entityId
  | DigBlock x y z => DigBlockAction.toJSON x y z
  end.

Definition Action_toJSON (o : ActionObj) : Described := describe (fields o).

(** ** actions.ts: [class ActionChains] (src/index.ts, lines 350-408)

    [start] (lines 361-383) is cut at its two waits: [start] and
    [start_loop] run it up to [await action.act()]; when that promise is
    fulfilled the scheduler continues with [advance] and [start_loop],
    when it is rejected with [start_catch].  [reset] (lines 385-398) is cut
    at [await action.cancel()]: what follows the wait is [clear]. *)

Inductive Reset : Type :=
| ResetDone (s : State)
| ResetWaiting (o : ActionObj) (s : State). (* at [await action.cancel()] *)

Module ActionChains.
Definition empty : ActionChains :=
  {| actions := []; currentActionIndex := 0 |}.

Definition add (a : ActionObj) (c : ActionChains) : ActionChains :=
  {| actions := actions c ++ [a];
     currentActionIndex := currentActionIndex c |}.

(** [this.actions[this.currentActionIndex]] when
    [this.currentActionIndex < this.actions.length] *)
Definition current (c : ActionChains) : option ActionObj :=
  nth_error (actions c) (currentActionIndex c).

Definition toJSON (c : ActionChains) : list Described :=
  map Action_toJSON (skipn (currentActionIndex c) (actions c)).

(** [this.actions = []; this.currentActionIndex = 0;] *)
Definition clear (s : State) : State := set_chains empty s.

Definition reset (s : State) : Reset :=
  match current (chains s) with
  | Some o =>
      match Action_cancel o s with
      | CancelReturned s' => ResetDone (clear s')
      | CancelThrew e s' =>
          ResetDone
            (clear (say [Console (FailedToCancel (Action_toJSON o) e)] s'))
      | CancelSuspended s' => ResetWaiting o s'
      end
  | None => ResetDone (clear s)
  end.

(** The [catch] block of [start]. *)
Definition start_catch (o : ActionObj) (e : Error) (s : State) : State :=
  let s1 := say [Console (Failed (Action_toJSON o) e);
                 Chat (Failed (Action_toJSON o) e)] s in
  match reset s1 with
  | ResetDone s' => s'                                   (* break *)
  | ResetWaiting o' s' => spawn (AwaitCancel o' CatchOfStart) s'
  end.

(** The [while] loop of [start], entered at its test.  No [act()] returns
    without waiting, so one pass reaches a wait or the [break]. *)
Definition start_loop (s : State) : State :=
  match current (chains s) with
  | Some o =>
      match Action_act o s with
      | Threw e s' => start_catch o e s'
      | Suspended w s' => spawn (AwaitAct o w) s'
      end
  | None => s
  end.

Definition start (s : State) : State :=
  let n := List.length (actions (chains s)) in
  start_loop
    (say [Chat (if Nat.eqb n 0 then NoActionsToPerform else Starting n)] s).

(** [this.currentActionIndex++] *)
Definition advance (s : State) : State :=
  set_chains {| actions := actions (chains s);
                currentActionIndex := S (currentActionIndex (chains s)) |} s.
End ActionChains.

(** ** The control loop: [class AiBot] (src/unnamed/part_001)

    [act] (lines 220-256) is cut at [await this.model.generateContent] and
    at [await this.actions.reset()]: [act], [act_answered], [act_submit]. *)

Module AiBot.
Definition LOOP_INTERVAL_MS : Z := 10000.

(** [this.actions.add(new C(this.bot, ...))] *)
Definition add_new (a : Action) (s : State) : State :=
  {| bot := bot s; output := output s;
     chains := ActionChains.add {| oid := nextId s; fields := a |} (chains s);
     tasks := tasks s; attackTick := attackTick s; nextId := S (nextId s) |}.

Definition addAction (name : string) (a : Obj) (s : State) : State :=
  let s1 := say [Console (AddingAction name a)] s in
  if String.eqb name "move_to_position" then
    add_new (MoveToPosition (prop "x" a) (prop "y" a) (prop "z" a)) s1
  else if String.eqb name "eat" then
    add_new (Eat (prop "itemName" a)) s1
  else if String.eqb name "follow_and_attack" then
    add_new (FollowAndAttack (prop "entityId" a)) s1
  else
    say [Console (UnknownToolCall name)] s1.

(** The two [for] loops over the candidates and their parts. *)
Definition translate (resp : Response) (s : State) : State :=
  fold_left
    (fun s (cand : Candidate) =>
       fold_left
         (fun s (part : Part) =>
            match part with
            | Some fc =>
                if String.eqb (name fc) EmptyString then s
                else addAction (name fc) (fargs fc) s
            | None => s
            end)
         (match cand with Some parts => parts | None => [] end) s)
    (match resp with Some cands => cands | None => [] end) s.

(** After [await this.actions.reset()]: translate, [this.actions.start()]
    without [await], [setTimeout]. *)
Definition act_submit (resp : Response) (s : State) : State :=
  spawn (AwaitTimer LOOP_INTERVAL_MS) (ActionChains.start (translate resp s)).

(** After [await this.model.generateContent(...)] has resolved. *)
Definition act_answered (resp : Response) (s : State) : State :=
  match ActionChains.reset s with
  | ResetDone s' => act_submit resp s'
  | ResetWaiting o s' => spawn (AwaitCancel o (CycleOfAct resp)) s'
  end.

(** [act()] from the return of [await this.scan()] up to
    [await this.model.generateContent(...)]; a [scan] that throws is the
    matter of [Cycle.act]. *)
Definition act (s : State) : State :=
  let pending := ActionChains.toJSON (chains s) in
  spawn (AwaitPlanner pending)
        (say [Console Scanned; Chat StatusSummary;
              Console (CurrentActions pending)] s).
End AiBot.

(** ** Events of the outside world and the scheduler *)

Inductive Event : Type :=
| goal_reached                (* bot.emit("goal_reached"): the goal is dropped *)
| path_reset                  (* bot.emit("path_reset") *)
| physicsTick                 (* bot.emit("physicsTick") *)
| entityGone (id : Z)         (* an entity leaves the world *)
| timeout (t : nat)           (* the timer that task [t] set fires *)
| settled (t : nat) (sig : Signal)
                              (* bot.equip / consume / dig of task [t] settles *)
| answered (t : nat) (r : Error + Response).
                              (* generateContent of task [t] settles *)

Definition present (e : Z) (b : Bot) : bool := existsb (Z.eqb e) (entities b).

(** Does the event settle what the task waits for? *)
Definition wakes (ev : Event) (b : Bot) (tk : nat * Task) : bool :=
  let (t, k) := tk in
  match ev, k with
  | goal_reached, AwaitAct _ (OnGoalReached _) => true
  | path_reset, AwaitCancel _ _ => true
  | physicsTick, AwaitAct _ (OnAttackTick e _) =>
      (* if (!entity || !entity.isValid) { setGoal(null); ...; resolve() };
         a valid entity within ATTACK_RANGE is attacked, which changes
         nothing that is modelled here *)
      negb (present e b) && match fault b with Some _ => false | None => true end
  | timeout t', AwaitAct _ (OnGoalReached _) => Nat.eqb t t'
  | timeout t', AwaitTimer _ => Nat.eqb t t'
  | settled t' _, AwaitAct _ OnEquip => Nat.eqb t t'
  | settled t' _, AwaitAct _ OnConsume => Nat.eqb t t'
  | settled t' _, AwaitAct _ OnDig => Nat.eqb t t'
  | answered t' _, AwaitPlanner _ => Nat.eqb t t'
  | _, _ => false
  end.

(** What the listeners and the game client do to the bot before any
    continuation runs. *)
Definition emit (ev : Event) (woken : list (nat * Task)) (b : Bot) : Bot :=
  match ev with
  | goal_reached => with_goal None b
  | physicsTick => match woken with [] => b | _ :: _ => with_goal None b end
  | entityGone id =>
      {| goal := goal b;
         entities := filter (fun e => negb (Z.eqb e id)) (entities b);
         inventory := inventory b; blocks := blocks b; fault := fault b |}
  | _ => b
  end.

Definition signal (ev : Event) : Signal :=
  match ev with
  | timeout _ => Rejected MoveTimeout
  | settled _ sig => sig
  | _ => Resolved
  end.

(** The continuation of a woken task. *)
Definition resume (ev : Event) (tk : nat * Task) (s : State) : State :=
  let (t, k) := tk in
  match k with
  | AwaitAct o w =>
      match Action_resume o w (signal ev) s with
      | ActPending w' s' => park t (AwaitAct o w') s'
      | ActFulfilled s' => ActionChains.start_loop (ActionChains.advance s')
      | ActRejected e s' => ActionChains.start_catch o e s'
      end
  | AwaitCancel _ c =>
      let s' := ActionChains.clear s in
      match c with
      | CatchOfStart => s'
      | CycleOfAct resp => AiBot.act_submit resp s'
      end
  | AwaitPlanner _ =>
      match ev with
      | answered _ (inr resp) => AiBot.act_answered resp s
      | _ => s                               (* act() rejects *)
      end
  | AwaitTimer _ => AiBot.act s
  end.

Definition step (ev : Event) (s : State) : State :=
  let (woken, rest) := partition (wakes ev (bot s)) (tasks s) in
  fold_left (fun s tk => resume ev tk s) woken
            (set_tasks rest (set_bot (emit ev woken (bot s)) s)).

Definition run (evs : list Event) (s : State) : State :=
  fold_left (fun s ev => step ev s) evs s.

(** [bot.once("spawn", ...)]: a bot in the world, nothing submitted yet. *)
Definition spawned (b : Bot) : State :=
  {| bot := b; output := []; chains := ActionChains.empty; tasks := [];
     attackTick := []; nextId := 0 |}.

(** The actions whose [act()] has been called and has not settled. *)
Definition running (s : State) : list ActionObj :=
  flat_map (fun tk => match snd tk with
                      | AwaitAct o _ => [o]
                      | _ => []
                      end) (tasks s).

(** ** bot.ts: the first loop, which carries a tool call out itself
    (src/bot.ts, lines 247-278) *)

Module BotV1.
Definition FOLLOW_RANGE : Q := 1.2.

Record World : Type := {
  v1_bot : Bot;
  v1_output : list Output;
  v1_listening : list Z   (* entities watched by a registered lastAttackTick *)
}.

Definition v1_say (ls : list Output) (w : World) : World :=
  {| v1_bot := v1_bot w; v1_output := v1_output w ++ ls;
     v1_listening := v1_listening w |}.

(** [AiBot.followAndAttack]: [inl] when the promise is rejected, [inr]
    when it is fulfilled. *)
Definition followAndAttack (entityId : JsValue) (w : World) : Error + World :=
  let w1 := v1_say [Chat (FollowingAndAttacking entityId)] w in
  match entityAt entityId (v1_bot w1) with
  | Some e =>
      let w2 := v1_say [Console (FollowingAndAttacking entityId)] w1 in
      match setGoal (Some (GoalFollow e FOLLOW_RANGE)) (v1_bot w2) with
      | inl err => inl err
      | inr b =>
          inr {| v1_bot := b; v1_output := v1_output w2;
                 v1_listening := v1_listening w2 ++ [e] |}
      end
  | None =>
      inr (v1_say [Console (CannotFollowAndAttack entityId)] w1)  (* return *)
  end.
End BotV1.

(** ** agent.ts: the loop that guards its cycle with [try]/[catch]
    (src/unnamed/part_000, lines 300-312 and 202-249) *)

Module Agent.
Inductive Phase : Type :=
| Exited                                 (* the [while] test failed *)
| AwaitDecide                            (* await planner.decide(percept) *)
| AwaitTool (rest : list FunctionCall).  (* await executeTool(bot, action) *)

Record Loop : Type := {
  controlLoopActive : bool;
  stopRequested : bool;
  errors : list Error;                   (* console.error("[loop] error:", ...) *)
  phase : Phase
}.

Definition enter (p : Phase) (l : Loop) : Loop :=
  {| controlLoopActive := controlLoopActive l;
     stopRequested := stopRequested l; errors := errors l; phase := p |}.

Definition report (e : Error) (l : Loop) : Loop :=
  {| controlLoopActive := controlLoopActive l;
     stopRequested := stopRequested l; errors := errors l ++ [e];
     phase := phase l |}.

(** [VertexPlanner.decide] after [generateContent] has resolved. *)
Definition tools_of (resp : Response) : list FunctionCall :=
  let tools :=
    flat_map
      (fun cand : Candidate =>
         flat_map
           (fun part : Part =>
              match part with
              | Some fc => if String.eqb (name fc) EmptyString then [] else [fc]
              | None => []
              end)
           (match cand with Some parts => parts | None => [] end))
      (match resp with Some cands => cands | None => [] end) in
  match tools with
  | [] => [{| name := "wait"; fargs := [("ms", JsNumber 1500)] |}]
  | _ :: _ => tools
  end.

(** [while (controlLoopActive && !stopRequested)], then [sense] and the
    call of [decide]. *)
Definition loop_test (l : Loop) : Loop :=
  if controlLoopActive l && negb (stopRequested l)
  then enter AwaitDecide l
  else enter Exited l.

(** [for (const action of actions) await executeTool(bot, action)] *)
Definition run_tools (tools : list FunctionCall) (l : Loop) : Loop :=
  match tools with
  | [] => loop_test l
  | _ :: rest => enter (AwaitTool rest) l
  end.

Inductive Event : Type :=
| decided (r : Error + Response)   (* generateContent inside decide settles *)
| toolSettled (sig : Signal)       (* executeTool settles *)
| chatStop.                        (* "stop" in chat *)

Definition step (ev : Event) (l : Loop) : Loop :=
  match ev, phase l with
  | decided (inr resp), AwaitDecide => run_tools (tools_of resp) l
  | decided (inl e), AwaitDecide => loop_test (report e l)      (* catch *)
  | toolSettled Resolved, AwaitTool rest => run_tools rest l
  | toolSettled (Rejected e), AwaitTool _ => loop_test (report e l)
  | chatStop, _ =>
      {| controlLoopActive := false; stopRequested := stopRequested l;
         errors := errors l; phase := phase l |}
  | _, _ => l
  end.
End Agent.

(** ** Observations on a state *)

(** The coroutines of the control loop: waiting for the planner, for the
    next cycle's timer, or for the reset that precedes a submission. *)
Definition is_loop (k : Task) : bool :=
  match k with
  | AwaitAct _ _ => false
  | AwaitCancel _ CatchOfStart => false
  | AwaitCancel _ (CycleOfAct _) => true
  | AwaitPlanner _ => true
  | AwaitTimer _ => true
  end.

Definition loop_tasks (s : State) : list (nat * Task) :=
  filter (fun tk => is_loop (snd tk)) (tasks s).

(** The delays of the pending [setTimeout(() => this.act(), ms)]. *)
Definition timers (s : State) : list Z :=
  flat_map (fun tk => match snd tk with
                      | AwaitTimer ms => [ms]
                      | _ => []
                      end) (tasks s).

(** [pending()] *)
Definition pending (s : State) : list Described :=
  ActionChains.toJSON (chains s).

Definition idle (s : State) : Prop := chains s = ActionChains.empty.

(** One [start()] is the only coroutine there is. *)
Definition alone (s : State) : Prop :=
  tasks s = [] \/
  (exists t o w, tasks s = [(t, AwaitAct o w)]) \/
  (exists t o, tasks s = [(t, AwaitCancel o CatchOfStart)]).

(** What is left of a run whose action [a] has just failed with [e], seen
    from the state [s] in which the failure arrived. *)
Definition aborted (a : ActionObj) (e : Error) (s s' : State) : Prop :=
  running s' = [] /\
  (exists more,
      output s' = output s ++ Console (Failed (Action_toJSON a) e)
                            :: Chat (Failed (Action_toJSON a) e) :: more /\
      (more = [] \/
       exists e', more = [Console (FailedToCancel (Action_toJSON a) e')])) /\
  (pending s' = [] \/ pending s' = map Action_toJSON (actions (chains s))) /\
  forall evs,
    let s'' := run evs s' in
    running s'' = [] /\ output s'' = output s' /\
    (In path_reset evs -> pending s'' = []).

(** *** Scenarios *)

Definition home : Bot :=
  {| goal := None; entities := []; inventory := ["bread"]; blocks := [];
     fault := None |}.

Definition call (n : string) (a : Obj) : Part := Some {| name := n; fargs := a |}.

Definition xyz (x y z : Z) : Obj :=
  [("x", JsNumber x); ("y", JsNumber y); ("z", JsNumber z)].

Definition answer (ps : list Part) : Response := Some [Some ps].

(** A first cycle whose walk is still under way when the second cycle
    begins, and whose meal is being eaten when the second plan arrives. *)
Definition first_plan : Response :=
  answer [call "move_to_position" (xyz 10 64 10);
          call "eat" [("itemName", JsString "bread")]].

Definition second_plan : Response :=
  answer [call "move_to_position" (xyz 20 64 20);
          call "move_to_position" (xyz 30 64 30)].

Definition overlap : list Event :=
  [ answered 0 (inr first_plan)   (* cycle 1: walk and eat submitted, walk begun *)
  ; timeout 4                     (* 10 s later: cycle 2 asks the planner *)
  ; goal_reached                  (* the walk ends, the first loop begins to eat *)
  ; settled 6 Resolved            (* bread in hand, consume under way *)
  ; answered 5 (inr second_plan)  (* cycle 2: reset, two walks submitted, first begun *)
  ; settled 6 Resolved ].         (* the meal ends: the first loop wakes up *)

(** A walk that is cancelled for the next run, and whose 30 s timer fires
    while that run is under way. *)
Definition lone_walk : Response :=
  answer [call "move_to_position" (xyz 10 64 10)].

Definition walk_then_eat : Response :=
  answer [call "move_to_position" (xyz 20 64 20);
          call "eat" [("itemName", JsString "bread")]].

Definition late_timeout : list Event :=
  [ answered 0 (inr lone_walk)      (* cycle 1: the walk begins *)
  ; timeout 3                       (* 10 s later: cycle 2 asks the planner *)
  ; answered 4 (inr walk_then_eat)  (* cycle 2: reset() cancels the walk ... *)
  ; path_reset                      (* ... and the new run is started *)
  ; timeout 2                       (* 30 s after cycle 1: "Move timeout" *)
  ; path_reset ].                   (* the reset() of the old catch block ends *)

(** A plan whose first action cannot be carried out: no cake at [home]. *)
Definition cake_first : Response :=
  answer [call "eat" [("itemName", JsString "cake")];
          call "move_to_position" (xyz 1 2 3);
          call "eat" [("itemName", JsString "bread")]].

(** A walk under way on a bot whose pathfinder raises on every directive. *)
Definition stuck_walk : State :=
  let a := {| oid := 0; fields := MoveToPosition (JsNumber 1) (JsNumber 2) (JsNumber 3) |} in
  {| bot := {| goal := Some (GoalNear (JsNumber 1) (JsNumber 2) (JsNumber 3) 1);
               entities := []; inventory := []; blocks := [];
               fault := Some "pathfinder is not loaded" |};
     output := [];
     chains := {| actions := [a]; currentActionIndex := 0 |};
     tasks := [(1, AwaitAct a (OnGoalReached 30000))];
     attackTick := []; nextId := 2 |}.

(** A meal under way: bread in hand, [bot.consume()] in flight. *)
Definition eating : State :=
  let a := {| oid := 0; fields := Eat (JsString "bread") |} in
  {| bot := home; output := [];
     chains := {| actions := [a]; currentActionIndex := 0 |};
     tasks := [(1, AwaitAct a OnConsume)];
     attackTick := []; nextId := 2 |}.

(** ** More observations: the planner's answer as one list of calls *)

(** The calls that [AiBot.act] hands to [addAction], in the order in which
    its two [for] loops meet them: the parts that carry a [functionCall]
    with a name. *)
Definition named_calls (resp : Response) : list FunctionCall :=
  flat_map
    (fun cand : Candidate =>
       flat_map
         (fun part : Part =>
            match part with
            | Some fc => if String.eqb (name fc) EmptyString then [] else [fc]
            | None => []
            end)
         (match cand with Some parts => parts | None => [] end))
    (match resp with Some cands => cands | None => [] end).

(** The action that the [switch] of [addAction] builds for a call, if its
    name is one of the three cases. *)
Definition built_from (fc : FunctionCall) : list Action :=
  if String.eqb (name fc) "move_to_position" then
    [MoveToPosition (prop "x" (fargs fc)) (prop "y" (fargs fc)) (prop "z" (fargs fc))]
  else if String.eqb (name fc) "eat" then
    [Eat (prop "itemName" (fargs fc))]
  else if String.eqb (name fc) "follow_and_attack" then
    [FollowAndAttack (prop "entityId" (fargs fc))]
  else [].

(** The state in which the continuation of the one task [tk] woken by
    [ev] begins to run. *)
Definition woken_alone (ev : Event) (tk : nat * Task) (s : State) : State :=
  set_tasks [] (set_bot (emit ev [tk] (bot s)) s).

(** *** More scenarios *)

(** A bot with a zombie (entity 7) nearby. *)
Definition haunted : Bot :=
  {| goal := None; entities := [7%Z]; inventory := ["bread"]; blocks := [];
     fault := None |}.

(** A hunt under way: the executor has started to follow entity 7. *)
Definition hunting : State :=
  ActionChains.start
    {| bot := haunted; output := [];
       chains := {| actions := [{| oid := 0; fields := FollowAndAttack (JsNumber 7) |}];
                    currentActionIndex := 0 |};
       tasks := []; attackTick := []; nextId := 1 |}.

(** A walk under way, with a meal to follow. *)
Definition walking : State :=
  ActionChains.start
    {| bot := home; output := [];
       chains := {| actions := [{| oid := 0; fields := MoveToPosition (JsNumber 1) (JsNumber 2) (JsNumber 3) |};
                                {| oid := 1; fields := Eat (JsString "bread") |}];
                    currentActionIndex := 0 |};
       tasks := []; attackTick := []; nextId := 2 |}.

(** An answer made of text and of a tool the loop does not know. *)
Definition idle_talk : Response :=
  Some [None; Some [None; call "dance" []; call EmptyString (xyz 1 2 3)]].

(** ** agent.ts: what [executeTool] does with the arguments of a call, and
    the choice of food (src/unnamed/part_000, lines 430-464 and 532-561) *)

Module AgentTools.
(** [Number(v)] for the values of a call: [None] is NaN.  How a string is
    read as a number is left to [parse].  The other kinds of value that
    [args: any] can carry (objects, arrays, booleans, null) are not among
    [JsValue]: what is proved of a tool is stated over the result of
    [Number]. *)
Definition Number (parse : string -> option Z) (v : JsValue) : option Z :=
  match v with
  | JsUndefined => None
  | JsNumber n => Some n
  | JsString s => parse s
  end.

(** [v ?? d] *)
Definition orElse (v d : JsValue) : JsValue :=
  match v with
  | JsUndefined => d
  | _ => v
  end.

(** [v.toString()] *)
Definition toString (v : JsValue) : string :=
  match v with
  | JsString s => s
  | _ => propertyKey v
  end.

(** case "say": [call.args?.text], or the empty string when that is
    missing, then [.toString().slice(0, 120)]; and
    [if (text) bot.chat(text)]: the lines said. *)
Definition say_text (a : Obj) : string :=
  substring 0 120 (toString (orElse (prop "text" a) (JsString EmptyString))).

Definition say_chat (a : Obj) : list string :=
  match say_text a with
  | EmptyString => []
  | text => [text]
  end.

(** [Math.max(a, b)] and [Math.min(a, b)], NaN if either is. *)
Definition Math_max (a b : option Z) : option Z :=
  match a, b with
  | Some x, Some y => Some (Z.max x y)
  | _, _ => None
  end.

Definition Math_min (a b : option Z) : option Z :=
  match a, b with
  | Some x, Some y => Some (Z.min x y)
  | _, _ => None
  end.

(** case "wait":
    [Math.min(Math.max(Number(call.args?.ms ?? 1000), 250), 5000)] *)
Definition wait_ms (parse : string -> option Z) (a : Obj) : option Z :=
  Math_min
    (Math_max (Number parse (orElse (prop "ms" a) (JsNumber 1000))) (Some 250%Z))
    (Some 5000%Z).

(** case "flee_from": [Math.max(8, Number(minDistance) || 16)];
    [x || 16] is 16 when [x] is NaN or 0. *)
Definition flee_distance (parse : string -> option Z) (a : Obj) : option Z :=
  Math_max (Some 8%Z)
           (match Number parse (prop "minDistance" a) with
            | None => Some 16%Z
            | Some 0%Z => Some 16%Z
            | Some n => Some n
            end).

(** [byName]: [inv.find((i) => i.name === name) || null], as the name of
    the item found. *)
Definition byName (inv : list string) (n : string) : option string :=
  find (String.eqb n) inv.

(** [for (const name of names) { const item = byName(name); if (item) return item; }] *)
Fixpoint first_by_name (inv names : list string) : option string :=
  match names with
  | [] => None
  | n :: names' =>
      match byName inv n with
      | Some item => Some item
      | None => first_by_name inv names'
      end
  end.

Definition likely : list string :=
  ["cooked_beef"; "cooked_porkchop"; "cooked_mutton"; "cooked_chicken";
   "bread"; "baked_potato"; "carrot"; "apple"; "pumpkin_pie";
   "beetroot_soup"; "mushroom_stew"; "cookie"].

Definition getFirstEdible (b : Bot) (prefer : list string) : option string :=
  match first_by_name (inventory b) prefer with
  | Some item => Some item
  | None => first_by_name (inventory b) likely
  end.
End AgentTools.


(** ** AiBot.scan: the flood fill around the head
    (src/unnamed/part_001, lines 116-218) *)

(** [for (let d = -r; d <= r; d++)]: the values that [d] takes. *)
Definition sweep (r : Z) : list Z :=
  map (fun n => (Z.of_nat n - r)%Z) (seq 0 (Z.to_nat (2 * r + 1))).

Module Scan.
(** A block position [{ x, y, z }]; the key [`${x},${y},${z}`] of [seen]
    names the same triple. *)
Definition Pos : Type := (Z * Z * Z)%type.

(** What [scan] reads of a mineflayer block. *)
Record Block : Type := { boundingBox : string; displayName : string }.

(** [this.bot.blockAt(new Vec3(x, y, z))]; [None] is null. *)
Definition World : Type := Pos -> option Block.

Definition SCAN_RADIUS : Z := 10.
Definition AIR_SCAN_RADIUS : Z := 5.
Definition DIRECTIONS : list Pos :=
  [(1, 0, 0); (-1, 0, 0); (0, 0, 1); (0, 0, -1); (0, 1, 0); (0, -1, 0)]%Z.

(** [{ x: pos.x + dir.x, y: pos.y + dir.y, z: pos.z + dir.z }] *)
Definition offset (pos dir : Pos) : Pos :=
  match pos, dir with
  | (x, y, z), (dx, dy, dz) => (x + dx, y + dy, z + dz)%Z
  end.

(** [Math.abs(pos.x - center.x) + Math.abs(pos.y - center.y) +
     Math.abs(pos.z - center.z)] *)
Definition dist (pos center : Pos) : Z :=
  match pos, center with
  | (x, y, z), (cx, cy, cz) => (Z.abs (x - cx) + Z.abs (y - cy) + Z.abs (z - cz))%Z
  end.

(** Two positions give the same key. *)
Definition same (p q : Pos) : bool :=
  match p, q with
  | (x, y, z), (x', y', z') => ((x =? x') && (y =? y') && (z =? z'))%Z
  end.

(** The variables of [scan]; [seen] in the order of insertion. *)
Record Vars : Type := {
  seen : list Pos;
  queues : list Pos;
  solidBlocksAroundMe : list (Pos * string);
  emptyBlocksAroundMe : list (Pos * string)
}.

(** One turn of [for (let dir of AiBot.DIRECTIONS)]. *)
Definition visit (pos : Pos) (v : Vars) (dir : Pos) : Vars :=
  let neighbor := offset pos dir in
  if existsb (same neighbor) (seen v) then v      (* continue *)
  else {| seen := seen v ++ [neighbor];
          queues := queues v ++ [neighbor];
          solidBlocksAroundMe := solidBlocksAroundMe v;
          emptyBlocksAroundMe := emptyBlocksAroundMe v |}.

(** The body of the [while] for [pos = queues[i]], up to [i++]. *)
Definition body (w : World) (center pos : Pos) (v : Vars) : Vars :=
  match w pos with
  | Some thisBlock =>
      if (dist pos center <=? SCAN_RADIUS)%Z then
        if String.eqb (boundingBox thisBlock) "block" then
          {| seen := seen v; queues := queues v;
             solidBlocksAroundMe :=
               solidBlocksAroundMe v ++ [(pos, displayName thisBlock)];
             emptyBlocksAroundMe := emptyBlocksAroundMe v |}
        else if String.eqb (boundingBox thisBlock) "empty" then
          fold_left (visit pos) DIRECTIONS
            (if (dist pos center <=? AIR_SCAN_RADIUS)%Z then
               {| seen := seen v; queues := queues v;
                  solidBlocksAroundMe := solidBlocksAroundMe v;
                  emptyBlocksAroundMe :=
                    emptyBlocksAroundMe v ++ [(pos, displayName thisBlock)] |}
             else v)
        else v
      else v
  | None => v
  end.

(** [while (i < queues.length) { ...; i++ }], at most [fuel] turns. *)
Fixpoint loop (fuel : nat) (w : World) (center : Pos) (i : nat) (v : Vars)
  : option Vars :=
  match nth_error (queues v) i with
  | None => Some v
  | Some pos =>
      match fuel with
      | O => None
      | S fuel' => loop fuel' w center (S i) (body w center pos v)
      end
  end.

(** [scan], for the block position [head] of the bot's head:
    [headBlock.position] throws a TypeError when [blockAt] gave null. *)
Definition scan (fuel : nat) (w : World) (head : Pos) : option (Error + Vars) :=
  match w head with
  | None => Some (inl (Foreign "TypeError"))
  | Some _ =>
      option_map (@inr Error Vars)
        (loop fuel w head 0
              {| seen := []; queues := [head];
                 solidBlocksAroundMe := []; emptyBlocksAroundMe := [] |})
  end.

(** *** What the flood fill is expected to do *)

(** The fill goes on from [p]: an empty block within the scan radius. *)
Definition expands (w : World) (center p : Pos) : bool :=
  match w p with
  | Some blk => (dist p center <=? SCAN_RADIUS)%Z
                && String.eqb (boundingBox blk) "empty"
  | None => false
  end.

(** The positions the fill touches: the head, and the six neighbours of
    every touched position from which it goes on. *)
Inductive reached (w : World) (center : Pos) : Pos -> Prop :=
| reached_center : reached w center center
| reached_next p dir :
    reached w center p -> expands w center p = true -> In dir DIRECTIONS ->
    reached w center (offset p dir).

(** How often a position is listed. *)
Definition listed (p : Pos) (l : list (Pos * string)) : nat :=
  List.length (filter (fun r => same (fst r) p) l).

(** The entry a position adds to each list when its turn comes. *)
Definition solid_of (w : World) (center p : Pos) : list (Pos * string) :=
  match w p with
  | Some blk =>
      if (dist p center <=? SCAN_RADIUS)%Z
         && String.eqb (boundingBox blk) "block"
      then [(p, displayName blk)] else []
  | None => []
  end.

Definition empty_of (w : World) (center p : Pos) : list (Pos * string) :=
  match w p with
  | Some blk =>
      if (dist p center <=? AIR_SCAN_RADIUS)%Z
         && String.eqb (boundingBox blk) "empty"
      then [(p, displayName blk)] else []
  | None => []
  end.

(** The cube of side 23 around a position: it holds every position at
    distance 11 or less. *)
Definition box (c : Pos) : list Pos :=
  flat_map (fun dx =>
    flat_map (fun dy =>
      map (fun dz => offset c (dx, dy, dz)) (sweep 11)) (sweep 11)) (sweep 11).

(** Turns of the loop that are always enough. *)
Definition ENOUGH : nat := S (23 * 23 * 23).

(** What holds of the variables when [i] positions have had their turn. *)
Definition Inv (w : World) (center : Pos) (i : nat) (v : Vars) : Prop :=
  queues v = center :: seen v /\
  NoDup (seen v) /\
  i <= List.length (queues v) /\
  solidBlocksAroundMe v = flat_map (solid_of w center) (firstn i (queues v)) /\
  emptyBlocksAroundMe v = flat_map (empty_of w center) (firstn i (queues v)) /\
  (forall p, In p (firstn i (queues v)) -> expands w center p = true ->
             forall d, In d DIRECTIONS -> In (offset p d) (seen v)) /\
  (forall q, In q (queues v) -> reached w center q) /\
  (forall q, In q (seen v) ->
             exists p d, In p (queues v) /\ expands w center p = true /\
                         In d DIRECTIONS /\ q = offset p d).
End Scan.

(** A pocket of air two blocks high, walled in by stone; nothing is
    loaded further away than two blocks. *)
Definition pocket : Scan.World :=
  fun p =>
    if Scan.same p (0, 64, 0)%Z || Scan.same p (0, 65, 0)%Z then
      Some {| Scan.boundingBox := "empty"; Scan.displayName := "Air" |}
    else if (Scan.dist p (0, 64, 0) <=? 2)%Z then
      Some {| Scan.boundingBox := "block"; Scan.displayName := "Stone" |}
    else None.

(** The variables of [scan] when it returns from the pocket. *)
Definition pocket_scan : Scan.Vars :=
  Eval vm_compute in
    match Scan.scan 20 pocket (0, 64, 0)%Z with
    | Some (inr v) => v
    | _ => {| Scan.seen := []; Scan.queues := [];
              Scan.solidBlocksAroundMe := []; Scan.emptyBlocksAroundMe := [] |}
    end.

(** ** The cycle from its first line (src/unnamed/part_001, line 221)

    [act()] begins with [let percept = await this.scan()], and [scan]
    throws when the block at the bot's head is not loaded: [act()] is
    then rejected on its first line, before anything is said and before
    [setTimeout] is reached.  [AiBot.act] above is what follows a [scan]
    that has returned. *)

Module Cycle.
(** What a cycle that begins finds around the bot: the world, and the
    block position of the bot's head. *)
Definition Sight : Type := (Scan.World * Scan.Pos)%type.

(** [act()], from [await this.scan()]. *)
Definition act (sight : Sight) (s : State) : State :=
  match Scan.scan Scan.ENOUGH (fst sight) (snd sight) with
  | Some (inr _) => AiBot.act s
  | _ => s                                   (* act() rejects *)
  end.




End Cycle.



(** ** bot.ts: the blocks that [sense] lists (src/bot.ts, lines 124-139) *)

Module SenseV1.
Definition SENSE_RADIUS : Z := 5.

(** [this.bot.blockAt(pos)?.displayName ?? "empty"] *)
Definition type_at (w : Scan.World) (pos : Scan.Pos) : string :=
  match w pos with
  | Some blk => Scan.displayName blk
  | None => "empty"
  end.

(** The three nested [for] loops, for [center] the floored position of
    the bot. *)
Definition blocks (w : Scan.World) (center : Scan.Pos)
  : list (Scan.Pos * string) :=
  flat_map (fun dx =>
    flat_map (fun dy =>
      flat_map (fun dz =>
        let pos := Scan.offset center (dx, dy, dz) in
        [(pos, type_at w pos)])
      (sweep SENSE_RADIUS))
    (sweep SENSE_RADIUS))
  (sweep SENSE_RADIUS).
End SenseV1.

(** ** agent.ts: the loops that share [controlLoopActive]
    (src/unnamed/part_000, lines 283-312 and 337-359) *)

Module AgentHost.
(** The variables that the handlers of [start()] close over, and the calls
    of [loop()] made so far, each with the place where it waits.
    [stopRequested] is never assigned: it is false throughout. *)
Record Host : Type := {
  controlLoopActive : bool;
  loops : list Agent.Phase;
  errors : list Error;            (* console.error("[loop] error:", ...) *)
  chat : list string              (* bot.chat(...) *)
}.

(** One of the loops, with the variables it reads. *)
Definition view (h : Host) (p : Agent.Phase) : Agent.Loop :=
  {| Agent.controlLoopActive := controlLoopActive h;
     Agent.stopRequested := false;
     Agent.errors := errors h;
     Agent.phase := p |}.

(** [controlLoopActive = true; (async function loop() { ... })();]: the
    new loop runs up to its first [await]. *)
Definition call_loop (h : Host) : Host :=
  let h1 := {| controlLoopActive := true; loops := loops h;
               errors := errors h; chat := chat h |} in
  {| controlLoopActive := true;
     loops := loops h ++ [Agent.phase (Agent.loop_test (view h1 Agent.Exited))];
     errors := errors h; chat := chat h |}.

Definition say (text : string) (h : Host) : Host :=
  {| controlLoopActive := controlLoopActive h; loops := loops h;
     errors := errors h; chat := chat h ++ [text] |}.

(** The handler of "spawn", which runs once. *)
Definition spawn : Host :=
  call_loop (say "I'm alive. Survival mode engaged."
                 {| controlLoopActive := false; loops := [];
                    errors := []; chat := [] |}).

Fixpoint put (k : nat) (p : Agent.Phase) (l : list Agent.Phase)
  : list Agent.Phase :=
  match l, k with
  | [], _ => []
  | _ :: l', O => p :: l'
  | q :: l', S k' => q :: put k' p l'
  end.

Inductive Event : Type :=
| stop_said                       (* a chat message that matches /^stop$/i *)
| start_said                      (* a chat message that matches /^start$/i *)
| settles (k : nat) (r : (Error + Response) + Signal).
     (* what loop [k] awaits settles: [decide], or [executeTool] *)

Definition step (ev : Event) (h : Host) : Host :=
  match ev with
  | stop_said =>
      let h1 := say "Stopping control loop." h in
      {| controlLoopActive := false; loops := loops h1;
         errors := errors h1; chat := chat h1 |}
  | start_said =>
      let h1 := say "Resuming control loop." h in
      if controlLoopActive h1 then h1 else call_loop h1
  | settles k r =>
      match nth_error (loops h) k with
      | Some p =>
          let l := Agent.step (match r with
                               | inl d => Agent.decided d
                               | inr sig => Agent.toolSettled sig
                               end) (view h p) in
          {| controlLoopActive := controlLoopActive h;
             loops := put k (Agent.phase l) (loops h);
             errors := Agent.errors l; chat := chat h |}
      | None => h
      end
  end.

Definition run (evs : list Event) (h : Host) : Host :=
  fold_left (fun h ev => step ev h) evs h.

(** The loops that have not left their [while]. *)
Definition is_live (p : Agent.Phase) : bool :=
  match p with
  | Agent.Exited => false
  | _ => true
  end.

Definition live (h : Host) : nat := List.length (filter is_live (loops h)).
End AgentHost.

(** ** agent.ts: the nearest hostile mob of [sense]
    (src/unnamed/part_000, lines 380-411) *)

Module AgentSense.
(** What [sense] reads of an entity; [distance] is
    [e.position.distanceTo(pos)]. *)
Record Entity : Type := {
  type : string;
  kind : option string;
  distance : Q
}.

Definition hostileNames : list string :=
  ["zombie"; "skeleton"; "creeper"; "spider"; "husk"; "drowned";
   "enderman"; "witch"; "slime"; "stray"; "phantom"; "pillager"].

(** [e.type === "mob" && e.kind], and
    [hostileNames.has(String(e.kind).toLowerCase())]. *)
Definition hostile (toLowerCase : string -> string) (e : Entity) : bool :=
  String.eqb (type e) "mob" &&
  match kind e with
  | Some k => negb (String.eqb k EmptyString) &&
              existsb (String.eqb (toLowerCase k)) hostileNames
  | None => false
  end.

(** One turn of [for (const id in bot.entities)]. *)
Definition look (toLowerCase : string -> string)
           (nearestHostile : option Entity) (e : Entity) : option Entity :=
  if hostile toLowerCase e then
    match nearestHostile with
    | None => Some e
    | Some n => if Qlt_le_dec (distance e) (distance n) then Some e
                else nearestHostile
    end
  else nearestHostile.

(** [nearestHostile] after the loop, as the entity it was taken from. *)
Definition nearestHostile (toLowerCase : string -> string)
           (entities : list Entity) : option Entity :=
  fold_left (look toLowerCase) entities None.
End AgentSense.

(** A pig, and two zombies and a skeleton of which the first zombie and
    the skeleton are equally near. *)
Definition mobs : list AgentSense.Entity :=
  [{| AgentSense.type := "mob"; AgentSense.kind := Some "pig";
      AgentSense.distance := 2 # 1 |};
   {| AgentSense.type := "mob"; AgentSense.kind := Some "zombie";
      AgentSense.distance := 4 # 1 |};
   {| AgentSense.type := "mob"; AgentSense.kind := Some "skeleton";
      AgentSense.distance := 4 # 1 |};
   {| AgentSense.type := "mob"; AgentSense.kind := Some "zombie";
      AgentSense.distance := 9 # 1 |}].

(** * Frame lemmas: what a method leaves alone *)

Lemma Action_resume_rejected o w e s :
  Action_resume o w (Rejected e) s = ActRejected e s.
Proof. unfold Action_resume. destruct (fields o); reflexivity. Qed.

Lemma Action_resume_cases o w sig s :
  Action_resume o w sig s = ActFulfilled s \/
  (exists e, sig = Rejected e /\ Action_resume o w sig s = ActRejected e s) \/
  (exists w', Action_resume o w sig s = ActPending w' s).
Proof.
  unfold Action_resume.
  destruct sig as [|e]; [|right; left; exists e; destruct (fields o); auto].
  destruct (fields o) as [x y z|i|i|x y z]; cbn; auto.
  - destruct w; eauto.
  - destruct w; eauto. destruct (blockAt x y z (bot s)); eauto.
Qed.

Lemma Action_act_frame o s :
  match Action_act o s with
  | Threw _ s' | Suspended _ s' =>
      tasks s' = tasks s /\ chains s' = chains s /\
      exists ls, output s' = output s ++ ls
  end.
Proof.
  unfold Action_act. destruct (fields o); cbn.
  - unfold MoveToPositionAction.act. cbn. destruct (setGoal _ _); cbn; eauto.
  - unfold EatAction.act. cbn. destruct (findItem _ _); cbn;
      rewrite <- app_assoc; eauto.
  - unfold FollowAndAttackAction.act. cbn. destruct (entityAt _ _); cbn.
    + destruct (setGoal _ _); cbn; rewrite <- app_assoc; eauto.
    + rewrite <- app_assoc; eauto.
  - unfold DigBlockAction.act. cbn. destruct (setGoal _ _); cbn; eauto.
Qed.

(** [removeListener] on the list of tasks. *)
Lemma removeListener_tasks l s :
  tasks (removeListener l s) =
  map (fun tk => match tk with
                 | (t, AwaitAct o (OnAttackTick e l')) =>
                     if Nat.eqb l l' then (t, AwaitAct o Orphaned) else tk
                 | _ => tk
                 end) (tasks s).
Proof. reflexivity. Qed.

Lemma removeListener_running l s : running (removeListener l s) = running s.
Proof.
  unfold running. rewrite removeListener_tasks.
  induction (tasks s) as [|[t k] ts IH]; [reflexivity|].
  cbn [map flat_map]. rewrite IH. f_equal.
  destruct k as [o [ | | |e l'| | ]| | | ]; try reflexivity.
  destruct (Nat.eqb l l'); reflexivity.
Qed.

Lemma removeListener_loop_tasks l s :
  loop_tasks (removeListener l s) = loop_tasks s.
Proof.
  unfold loop_tasks. rewrite removeListener_tasks.
  induction (tasks s) as [|[t k] ts IH]; [reflexivity|].
  cbn [map filter].
  destruct k as [o [ | | |e l'| | ]| | | ]; cbn [snd is_loop];
    try (rewrite IH; reflexivity).
  destruct (Nat.eqb l l'); cbn [snd is_loop]; rewrite IH; reflexivity.
Qed.

Lemma removeListener_timers l s : timers (removeListener l s) = timers s.
Proof.
  unfold timers. rewrite removeListener_tasks.
  induction (tasks s) as [|[t k] ts IH]; [reflexivity|].
  cbn [map flat_map]. rewrite IH. f_equal.
  destruct k as [o [ | | |e l'| | ]| | | ]; try reflexivity.
  destruct (Nat.eqb l l'); reflexivity.
Qed.

Lemma removeListener_no_tasks l s :
  tasks s = [] -> removeListener l s = s.
Proof.
  intros H. unfold removeListener. rewrite H. cbn.
  destruct s; cbn in *; subst; reflexivity.
Qed.

(** [cancel()] never touches the executor or the output; of the tasks it
    changes at most what an [act()] of the same object waits for. *)
Lemma Action_cancel_frame o s :
  match Action_cancel o s with
  | CancelReturned s' | CancelThrew _ s' | CancelSuspended s' =>
      chains s' = chains s /\ output s' = output s /\
      running s' = running s /\ loop_tasks s' = loop_tasks s /\
      timers s' = timers s /\ (tasks s = [] -> tasks s' = [])
  end.
Proof.
  assert (G : forall s0 : State,
             chains s0 = chains s -> output s0 = output s ->
             running s0 = running s -> loop_tasks s0 = loop_tasks s ->
             timers s0 = timers s -> (tasks s = [] -> tasks s0 = []) ->
             match
               match goal (bot s0) with
               | Some _ => match setGoal None (bot s0) with
                           | inl e => CancelThrew e s0
                           | inr b => CancelSuspended (set_bot b s0)
                           end
               | None => CancelReturned s0
               end
             with
             | CancelReturned s' | CancelThrew _ s' | CancelSuspended s' =>
                 chains s' = chains s /\ output s' = output s /\
                 running s' = running s /\ loop_tasks s' = loop_tasks s /\
                 timers s' = timers s /\ (tasks s = [] -> tasks s' = [])
             end).
  { intros s0 ? ? ? ? ? ?. destruct (goal (bot s0)); [|tauto].
    destruct (setGoal None (bot s0)); cbn; tauto. }
  unfold Action_cancel. destruct (fields o).
  - apply G; auto.
  - cbn. tauto.
  - unfold FollowAndAttackAction.cancel, stop.
    destruct (lookup (oid o) (attackTick s)) as [l|]; [|apply G; auto].
    apply G; try reflexivity.
    + apply removeListener_running.
    + apply removeListener_loop_tasks.
    + apply removeListener_timers.
    + intros H. rewrite removeListener_no_tasks; auto.
  - apply G; auto.
Qed.

Lemma spawn_running k s :
  running (spawn k s) =
  running s ++ match k with AwaitAct o _ => [o] | _ => [] end.
Proof.
  unfold running, spawn. cbn [tasks]. rewrite flat_map_app. cbn.
  rewrite app_nil_r. reflexivity.
Qed.

Lemma spawn_loop_tasks k s :
  loop_tasks (spawn k s) =
  loop_tasks s ++ (if is_loop k then [(nextId s, k)] else []).
Proof.
  unfold loop_tasks, spawn. cbn [tasks]. rewrite filter_app. cbn.
  destruct (is_loop k); reflexivity.
Qed.

Lemma spawn_timers k s :
  timers (spawn k s) =
  timers s ++ match k with AwaitTimer ms => [ms] | _ => [] end.
Proof.
  unfold timers, spawn. cbn [tasks]. rewrite flat_map_app. cbn.
  rewrite app_nil_r. reflexivity.
Qed.

Lemma reset_frame s :
  match ActionChains.reset s with
  | ResetDone s' =>
      chains s' = ActionChains.empty /\
      (output s' = output s \/
       exists o e, ActionChains.current (chains s) = Some o /\
                   output s' = output s ++
                                [Console (FailedToCancel (Action_toJSON o) e)]) /\
      running s' = running s /\ loop_tasks s' = loop_tasks s /\
      timers s' = timers s /\ (tasks s = [] -> tasks s' = [])
  | ResetWaiting o s' =>
      ActionChains.current (chains s) = Some o /\
      chains s' = chains s /\ output s' = output s /\
      running s' = running s /\ loop_tasks s' = loop_tasks s /\
      timers s' = timers s /\ (tasks s = [] -> tasks s' = [])
  end.
Proof.
  unfold ActionChains.reset.
  destruct (ActionChains.current (chains s)) as [o|] eqn:Hc.
  - pose proof (Action_cancel_frame o s) as F.
    destruct (Action_cancel o s) as [s'|e s'|s'];
      destruct F as (F1 & F2 & F3 & F4 & F5 & F6); cbn.
    + repeat split; auto.
    + repeat split; auto. right. exists o, e. rewrite F2. auto.
    + repeat split; auto.
  - cbn. repeat split; auto.
Qed.

(** [reset()] ends no [start()]: every [act()] that was under way before
    it is under way after it, the one it has cancelled included. *)
Lemma reset_ends_no_start s :
  match ActionChains.reset s with
  | ResetDone s' | ResetWaiting _ s' => running s' = running s
  end.
Proof.
  pose proof (reset_frame s) as F.
  destruct (ActionChains.reset s); tauto.
Qed.

Lemma start_catch_frame o e s :
  let s' := ActionChains.start_catch o e s in
  running s' = running s /\ loop_tasks s' = loop_tasks s /\
  timers s' = timers s /\
  (exists more,
      output s' = output s ++ Console (Failed (Action_toJSON o) e)
                            :: Chat (Failed (Action_toJSON o) e) :: more /\
      (more = [] \/
       exists o' e', ActionChains.current (chains s) = Some o' /\
                     more = [Console (FailedToCancel (Action_toJSON o') e')])) /\
  (tasks s = [] ->
   (tasks s' = [] /\ chains s' = ActionChains.empty) \/
   (exists t o', tasks s' = [(t, AwaitCancel o' CatchOfStart)] /\
                 chains s' = chains s)).
Proof.
  unfold ActionChains.start_catch.
  set (s1 := say _ s).
  pose proof (reset_frame s1) as F.
  destruct (ActionChains.reset s1) as [s'|o' s']; cbn zeta.
  - destruct F as (F1 & F2 & F3 & F4 & F5 & F6).
    split; [exact F3|]. split; [exact F4|]. split; [exact F5|]. split.
    + destruct F2 as [F2|(o' & e' & Hc & F2)]; rewrite F2; cbn.
      * exists []. auto.
      * exists [Console (FailedToCancel (Action_toJSON o') e')].
        rewrite <- app_assoc. cbn. split; eauto.
    + intros H. left. auto.
  - destruct F as (Hc & F1 & F2 & F3 & F4 & F5 & F6).
    rewrite spawn_running, spawn_loop_tasks, spawn_timers.
    cbn [is_loop]. rewrite !app_nil_r.
    split; [exact F3|]. split; [exact F4|]. split; [exact F5|]. split.
    + exists []. cbn. rewrite F2. auto.
    + intros H. right. exists (nextId s'), o'. cbn. rewrite (F6 H). auto.
Qed.

Lemma start_loop_frame s :
  let s' := ActionChains.start_loop s in
  loop_tasks s' = loop_tasks s /\ timers s' = timers s /\
  (running s' = running s \/
   exists o, ActionChains.current (chains s) = Some o /\
             running s' = running s ++ [o]).
Proof.
  unfold ActionChains.start_loop.
  destruct (ActionChains.current (chains s)) as [o|] eqn:Hc; [|cbn; auto].
  pose proof (Action_act_frame o s) as F.
  destruct (Action_act o s) as [e s1|w s1]; destruct F as (F1 & F2 & ls & F3).
  - pose proof (start_catch_frame o e s1) as (G1 & G2 & G3 & _).
    cbn zeta. rewrite G1, G2, G3. unfold running, loop_tasks, timers.
    rewrite F1. auto.
  - cbn zeta. rewrite spawn_running, spawn_loop_tasks, spawn_timers.
    cbn [is_loop]. rewrite !app_nil_r. unfold running, loop_tasks, timers.
    rewrite F1. repeat split; auto. right. exists o. auto.
Qed.

(** * One event at a time *)

Lemma step_none ev s :
  tasks s = [] ->
  tasks (step ev s) = [] /\ chains (step ev s) = chains s /\
  output (step ev s) = output s.
Proof. intros H. unfold step. rewrite H. cbn. auto. Qed.

Lemma step_one ev s tk :
  tasks s = [tk] ->
  step ev s =
  if wakes ev (bot s) tk
  then resume ev tk (set_tasks [] (set_bot (emit ev [tk] (bot s)) s))
  else set_tasks [tk] (set_bot (emit ev [] (bot s)) s).
Proof.
  intros H. unfold step. rewrite H. cbn [partition].
  destruct (wakes ev (bot s) tk); reflexivity.
Qed.

Lemma run_none evs : forall s,
  tasks s = [] ->
  tasks (run evs s) = [] /\ chains (run evs s) = chains s /\
  output (run evs s) = output s.
Proof.
  induction evs as [|ev evs IH]; intros s H; [cbn; auto|].
  destruct (step_none ev s H) as (H1 & H2 & H3).
  destruct (IH (step ev s) H1) as (I1 & I2 & I3).
  cbn [run fold_left]. fold (run evs (step ev s)).
  rewrite <- H2, <- H3. auto.
Qed.

Lemma running_of_tasks s ts : tasks s = ts ->
  running s = flat_map (fun tk => match snd tk with
                                  | AwaitAct o _ => [o]
                                  | _ => []
                                  end) ts.
Proof. intros <-. reflexivity. Qed.

(** While [reset()] waits for "path_reset" on behalf of the [catch] block,
    only that event changes anything. *)
Lemma step_cancelling ev s t o :
  tasks s = [(t, AwaitCancel o CatchOfStart)] ->
  output (step ev s) = output s /\
  ((ev = path_reset /\ tasks (step ev s) = [] /\
    chains (step ev s) = ActionChains.empty) \/
   (ev <> path_reset /\ tasks (step ev s) = tasks s /\
    chains (step ev s) = chains s)).
Proof.
  intros H. rewrite (step_one ev s _ H).
  destruct ev; cbn; rewrite ?H; split; auto; right; split; auto; discriminate.
Qed.

Lemma settled_abort evs : forall s,
  (tasks s = [] /\ chains s = ActionChains.empty) \/
  (exists t o, tasks s = [(t, AwaitCancel o CatchOfStart)]) ->
  running (run evs s) = [] /\ output (run evs s) = output s /\
  (In path_reset evs -> pending (run evs s) = []).
Proof.
  induction evs as [|ev evs IH]; intros s H.
  - cbn [run fold_left]. split; [|split; [reflexivity|intros []]].
    destruct H as [[H _]|(t & o & H)]; rewrite (running_of_tasks _ _ H);
      reflexivity.
  - cbn [run fold_left]. fold (run evs (step ev s)).
    destruct H as [[H1 H2]|(t & o & H)].
    + destruct (step_none ev s H1) as (S1 & S2 & S3).
      destruct (IH (step ev s)) as (I1 & I2 & I3);
        [left; split; [exact S1|congruence]|].
      split; [exact I1|]. split; [congruence|].
      intros _. destruct (run_none evs (step ev s) S1) as (_ & R & _).
      unfold pending. rewrite R, S2, H2. reflexivity.
    + destruct (step_cancelling ev s t o H) as (S3 & [(E & S1 & S2)|(E & S1 & S2)]).
      * destruct (IH (step ev s)) as (I1 & I2 & I3); [left; auto|].
        split; [exact I1|]. split; [congruence|].
        intros _. destruct (run_none evs (step ev s) S1) as (_ & R & _).
        unfold pending. rewrite R, S2. reflexivity.
      * destruct (IH (step ev s)) as (I1 & I2 & I3);
          [right; exists t, o; congruence|].
        split; [exact I1|]. split; [congruence|].
        intros [|Hin]; [congruence|auto].
Qed.

(** The [catch] block of a [start()] that is alone does what [aborted]
    says. *)
Lemma start_catch_aborts a rest e s :
  tasks s = [] ->
  chains s = {| actions := a :: rest; currentActionIndex := 0 |} ->
  aborted a e s (ActionChains.start_catch a e s).
Proof.
  intros Ht Hc.
  destruct (start_catch_frame a e s) as (F1 & _ & _ & (more & F2 & F3) & F4).
  assert (Hcur : ActionChains.current (chains s) = Some a)
    by (rewrite Hc; reflexivity).
  unfold aborted. split; [|split; [|split]].
  - rewrite F1, (running_of_tasks _ _ Ht). reflexivity.
  - exists more. split; [exact F2|].
    destruct F3 as [F3|(o' & e' & Ho & F3)]; [auto|].
    right. exists e'. congruence.
  - destruct (F4 Ht) as [[_ G]|(t & o' & _ & G)]; unfold pending; rewrite G.
    + left. reflexivity.
    + right. rewrite Hc. reflexivity.
  - intros evs. apply settled_abort.
    destruct (F4 Ht) as [[G1 G2]|(t & o' & G & _)]; [left; auto|].
    right. exists t, o'. exact G.
Qed.

(** * A [start()] that is alone on the executor *)

Lemma start_catch_alone o e s :
  tasks s = [] ->
  let s' := ActionChains.start_catch o e s in
  alone s' /\ (chains s' = chains s \/ chains s' = ActionChains.empty).
Proof.
  intros H. destruct (start_catch_frame o e s) as (_ & _ & _ & _ & F).
  destruct (F H) as [[F1 F2]|(t & o' & F1 & F2)]; cbv zeta.
  - split; [left; exact F1|right; exact F2].
  - split; [right; right; exists t, o'; exact F1|left; exact F2].
Qed.

Lemma start_loop_alone s :
  tasks s = [] ->
  let s' := ActionChains.start_loop s in
  alone s' /\ (chains s' = chains s \/ chains s' = ActionChains.empty).
Proof.
  intros H. unfold ActionChains.start_loop.
  destruct (ActionChains.current (chains s)) as [o|];
    [|cbv zeta; split; [left; exact H|left; reflexivity]].
  pose proof (Action_act_frame o s) as F.
  destruct (Action_act o s) as [e s1|w s1]; destruct F as (F1 & F2 & _).
  - destruct (start_catch_alone o e s1) as (A & C); [congruence|].
    cbv zeta. split; [exact A|]. rewrite <- F2. exact C.
  - cbv zeta. split.
    + right; left. exists (nextId s1), o, w. cbn. rewrite F1, H. reflexivity.
    + left. exact F2.
Qed.

(** Alone, a [start()] stays alone, and the cursor moves in two ways only:
    forward by one when the action it waits for has succeeded, back to
    zero (with the list emptied) when the run is aborted. *)
Lemma alone_step ev s :
  alone s ->
  alone (step ev s) /\
  (chains (step ev s) = chains s \/
   chains (step ev s) = ActionChains.empty \/
   (chains (step ev s) = chains (ActionChains.advance s) /\
    exists t o w, tasks s = [(t, AwaitAct o w)] /\
                  wakes ev (bot s) (t, AwaitAct o w) = true /\
                  signal ev = Resolved)).
Proof.
  intros [H|[(t & o & w & H)|(t & o & H)]].
  - destruct (step_none ev s H) as (S1 & S2 & _).
    split; [left; exact S1|left; exact S2].
  - rewrite (step_one ev s _ H).
    destruct (wakes ev (bot s) (t, AwaitAct o w)) eqn:W.
    + set (s0 := set_tasks [] (set_bot (emit ev [(t, AwaitAct o w)] (bot s)) s)).
      cbn [resume].
      destruct (Action_resume_cases o w (signal ev) s0)
        as [F|[(e & _ & F)|(w' & F)]]; rewrite F.
      * destruct (start_loop_alone (ActionChains.advance s0) eq_refl) as (A & C).
        split; [exact A|]. destruct C as [C|C]; [|right; left; exact C].
        right; right. split; [exact C|]. exists t, o, w.
        split; [exact H|]. split; [exact W|].
        destruct (signal ev) as [|e]; [reflexivity|].
        rewrite Action_resume_rejected in F. discriminate.
      * destruct (start_catch_alone o e s0 eq_refl) as (A & C).
        split; [exact A|]. destruct C as [C|C]; [left; exact C|right; left; exact C].
      * split; [|left; reflexivity].
        right; left. exists t, o, w'. reflexivity.
    + split; [|left; reflexivity]. right; left. exists t, o, w. reflexivity.
  - destruct (step_cancelling ev s t o H) as (_ & [(_ & S1 & S2)|(_ & S1 & S2)]).
    + split; [left; exact S1|right; left; exact S2].
    + split; [|left; exact S2]. right; right. exists t, o. congruence.
Qed.

Lemma alone_run evs : forall s, alone s -> alone (run evs s).
Proof.
  induction evs as [|ev evs IH]; intros s H; [exact H|].
  cbn [run fold_left]. apply IH, alone_step, H.
Qed.

Lemma alone_running s : alone s -> List.length (running s) <= 1.
Proof.
  intros [H|[(t & o & w & H)|(t & o & H)]];
    rewrite (running_of_tasks _ _ H); cbn; lia.
Qed.

(** What C1 asks for does hold of a [start()] that nothing else shares the
    executor with: whatever the world does, at most one action is running. *)
Lemma start_alone_is_sequential :
  forall s evs,
    tasks s = [] ->
    List.length (running (run evs (ActionChains.start s))) <= 1.
Proof.
  intros s evs H. apply alone_running, alone_run.
  unfold ActionChains.start. apply start_loop_alone. exact H.
Qed.

(** * The translation of the planner's answer *)

(** What [addAction] and the translation of an answer leave alone. *)
Lemma addAction_frame n a s :
  let s' := AiBot.addAction n a s in
  tasks s' = tasks s /\ bot s' = bot s /\
  exists new,
    chains s' = {| actions := actions (chains s) ++ new;
                   currentActionIndex := currentActionIndex (chains s) |}.
Proof.
  unfold AiBot.addAction.
  destruct (String.eqb n "move_to_position");
    [|destruct (String.eqb n "eat");
      [|destruct (String.eqb n "follow_and_attack")]];
    cbn; (split; [reflexivity|]); (split; [reflexivity|]);
    try (eexists [_]; reflexivity).
  exists []. rewrite app_nil_r. destruct (chains s); reflexivity.
Qed.

Lemma translate_frame resp s :
  let s' := AiBot.translate resp s in
  tasks s' = tasks s /\ bot s' = bot s /\
  exists new,
    chains s' = {| actions := actions (chains s) ++ new;
                   currentActionIndex := currentActionIndex (chains s) |}.
Proof.
  assert (Refl : forall s0 : State,
             tasks s0 = tasks s0 /\ bot s0 = bot s0 /\
             exists new,
               chains s0 = {| actions := actions (chains s0) ++ new;
                              currentActionIndex := currentActionIndex (chains s0) |}).
  { intros s0. repeat split. exists []. rewrite app_nil_r.
    destruct (chains s0); reflexivity. }
  assert (Trans : forall s0 s1 s2 : State,
             (tasks s1 = tasks s0 /\ bot s1 = bot s0 /\
              exists new,
                chains s1 = {| actions := actions (chains s0) ++ new;
                               currentActionIndex := currentActionIndex (chains s0) |}) ->
             (tasks s2 = tasks s1 /\ bot s2 = bot s1 /\
              exists new,
                chains s2 = {| actions := actions (chains s1) ++ new;
                               currentActionIndex := currentActionIndex (chains s1) |}) ->
             tasks s2 = tasks s0 /\ bot s2 = bot s0 /\
             exists new,
               chains s2 = {| actions := actions (chains s0) ++ new;
                              currentActionIndex := currentActionIndex (chains s0) |}).
  { intros s0 s1 s2 (A1 & A2 & n1 & A3) (B1 & B2 & n2 & B3).
    split; [congruence|]. split; [congruence|].
    exists (n1 ++ n2). rewrite B3, A3. cbn. rewrite app_assoc. reflexivity. }
  assert (Parts : forall (ps : list Part) (s0 : State),
             let s' := fold_left
                         (fun s (part : Part) =>
                            match part with
                            | Some fc =>
                                if String.eqb (name fc) EmptyString then s
                                else AiBot.addAction (name fc) (fargs fc) s
                            | None => s
                            end) ps s0 in
             tasks s' = tasks s0 /\ bot s' = bot s0 /\
             exists new,
               chains s' = {| actions := actions (chains s0) ++ new;
                              currentActionIndex := currentActionIndex (chains s0) |}).
  { induction ps as [|p ps IH]; intros s0; [apply Refl|].
    cbn [fold_left]. eapply Trans; [|apply IH].
    destruct p as [fc|]; [|apply Refl].
    destruct (String.eqb (name fc) EmptyString); [apply Refl|apply addAction_frame]. }
  unfold AiBot.translate.
  generalize (match resp with Some cands => cands | None => [] end).
  intros cands. revert s.
  induction cands as [|c cands IH]; intros s; [apply Refl|].
  cbn [fold_left]. eapply Trans; [|apply IH]. apply Parts.
Qed.

(** * The control loop's own coroutines *)

Lemma park_loop_tasks t o w s :
  loop_tasks (park t (AwaitAct o w) s) = loop_tasks s.
Proof.
  unfold loop_tasks, park. cbn [tasks set_tasks]. rewrite filter_app. cbn.
  apply app_nil_r.
Qed.

(** A continuation of the executor creates no coroutine of the loop. *)
Lemma resume_loop_tasks ev tk s :
  is_loop (snd tk) = false ->
  loop_tasks (resume ev tk s) = loop_tasks s.
Proof.
  destruct tk as [t [o w|o [|resp]|p|ms]]; cbn [snd is_loop]; try discriminate;
    intros _; cbn [resume]; [|reflexivity].
  destruct (Action_resume_cases o w (signal ev) s) as [H|[(e & _ & H)|(w' & H)]];
    rewrite H.
  - destruct (start_loop_frame (ActionChains.advance s)) as (F & _). exact F.
  - destruct (start_catch_frame o e s) as (_ & F & _). exact F.
  - apply park_loop_tasks.
Qed.

Lemma resume_all_loop_tasks ev woken : forall s,
  Forall (fun tk => is_loop (snd tk) = false) woken ->
  loop_tasks (fold_left (fun s tk => resume ev tk s) woken s) = loop_tasks s.
Proof.
  induction woken as [|tk woken IH]; intros s H; [reflexivity|].
  inversion H as [|? ? H1 H2]; subst. cbn [fold_left].
  rewrite (IH _ H2). apply resume_loop_tasks. exact H1.
Qed.

Lemma no_loop_tasks_Forall ts :
  filter (fun tk : nat * Task => is_loop (snd tk)) ts = [] ->
  Forall (fun tk => is_loop (snd tk) = false) ts.
Proof.
  induction ts as [|tk ts IH]; intros H; [constructor|].
  cbn [filter] in H. destruct (is_loop (snd tk)) eqn:E; [discriminate|].
  constructor; auto.
Qed.

Lemma Forall_filter_keep {A} (P : A -> Prop) f (l : list A) :
  Forall P l -> Forall P (filter f l).
Proof.
  induction 1 as [|x l Hx Hl IH]; cbn; [constructor|].
  destruct (f x); [constructor|]; auto.
Qed.

Lemma filter_none {A} (f : A -> bool) (l : list A) :
  Forall (fun x => f x = false) l -> filter f l = [].
Proof.
  induction 1 as [|x l Hx Hl IH]; cbn; [reflexivity|]. rewrite Hx. exact IH.
Qed.

(** Once the loop has no coroutine left, no event gives it one. *)
Lemma step_loop_dead ev s :
  loop_tasks s = [] -> loop_tasks (step ev s) = [].
Proof.
  intros H. apply no_loop_tasks_Forall in H.
  unfold step. rewrite partition_as_filter.
  rewrite resume_all_loop_tasks by (apply Forall_filter_keep; exact H).
  unfold loop_tasks. cbn [tasks set_tasks].
  apply filter_none, Forall_filter_keep, H.
Qed.

Lemma run_loop_dead evs : forall s,
  loop_tasks s = [] -> loop_tasks (run evs s) = [].
Proof.
  induction evs as [|ev evs IH]; intros s H; [exact H|].
  cbn [run fold_left]. apply IH, step_loop_dead, H.
Qed.

Lemma wakes_answered_is_loop t r b tk :
  wakes (answered t r) b tk = true -> is_loop (snd tk) = true.
Proof.
  destruct tk as [t' [o w|o k|p|ms]]; cbn; try discriminate; auto.
Qed.

Lemma filter_through {A} (f g : A -> bool) (l : list A) :
  (forall x, f x = true -> g x = true) ->
  filter f l = filter f (filter g l).
Proof.
  intros H. induction l as [|x l IH]; [reflexivity|]. cbn [filter].
  destruct (f x) eqn:Ef.
  - rewrite (H x Ef). cbn [filter]. rewrite Ef, IH. reflexivity.
  - destruct (g x); cbn [filter]; rewrite ?Ef; exact IH.
Qed.

Lemma filter_swap {A} (f g : A -> bool) (l : list A) :
  filter f (filter g l) = filter g (filter f l).
Proof.
  induction l as [|x l IH]; [reflexivity|]. cbn [filter].
  destruct (f x) eqn:Ef, (g x) eqn:Eg; cbn [filter]; rewrite ?Ef, ?Eg, IH;
    reflexivity.
Qed.

(** * The claims *)

(** C1, as the code has it.  The control loop resets the executor and
    starts the next run while the [start()] of the previous run is still
    suspended in an [act()] that [cancel()] cannot interrupt (eating).
    When that [act()] returns, the old loop advances the cursor of the new
    run and starts its second action while its first is still running:
    two actions of one run are running at once, and the cursor has moved
    without the current action having succeeded. *)
Theorem stale_start_overlaps_the_next_run :
  let s := run overlap (AiBot.act (spawned home)) in
  let walk20 := {| oid := 7; fields := MoveToPosition (JsNumber 20) (JsNumber 64) (JsNumber 20) |} in
  let walk30 := {| oid := 8; fields := MoveToPosition (JsNumber 30) (JsNumber 64) (JsNumber 30) |} in
  actions (chains s) = [walk20; walk30] /\
  currentActionIndex (chains s) = 1 /\
  running s = [walk20; walk30].
Proof. cbv zeta. split; [|split]; vm_compute; reflexivity. Qed.

(** The same defect with a walk, which [cancel()] does interrupt: the
    cancelled [act()] stays pending until its own timer rejects it, and
    the [catch] block of the old [start()] then resets the run that came
    after it.  The new run is emptied although none of its actions has
    failed, and its first action is still running. *)
Lemma stale_timeout_aborts_the_next_run :
  let s := run late_timeout (AiBot.act (spawned home)) in
  let walk10 := MoveToPositionAction.toJSON (JsNumber 10) (JsNumber 64) (JsNumber 10) in
  chains s = ActionChains.empty /\
  running s = [{| oid := 6; fields := MoveToPosition (JsNumber 20) (JsNumber 64) (JsNumber 20) |}] /\
  skipn 13 (output s) = [Console (Failed walk10 MoveTimeout);
                         Chat (Failed walk10 MoveTimeout)].
Proof. cbv zeta. split; [|split]; vm_compute; reflexivity. Qed.

(** C2, counterexample.  The planner proposes [eat cake; walk; eat bread]
    and there is no cake: when [start()] has given up, [pending()] is
    empty, not the descriptions of the two actions that were never
    started. *)
Lemma pending_after_abort_is_empty :
  let s := step (answered 0 (inr cake_first)) (AiBot.act (spawned home)) in
  pending s = [] /\
  pending s <> [MoveToPositionAction.toJSON (JsNumber 1) (JsNumber 2) (JsNumber 3);
                EatAction.toJSON (JsString "bread")] /\
  running s = [].
Proof.
  cbv zeta. split; [|split].
  - vm_compute. reflexivity.
  - vm_compute. discriminate.
  - vm_compute. reflexivity.
Qed.

(** C2, amended.  When the first action of a run fails, at once or after a
    wait, [start()] logs the failure with that action's [toJSON] output
    and resets; no other action is started then or later; [pending()] is
    empty as soon as the reset is through (it still lists the whole run,
    the failed action included, while [cancel()] waits for "path_reset"). *)
Theorem first_failure_aborts_the_run :
  (forall s a rest e s1,
      tasks s = [] ->
      chains s = {| actions := a :: rest; currentActionIndex := 0 |} ->
      Action_act a (say [Chat (Starting (S (List.length rest)))] s) = Threw e s1 ->
      aborted a e s1 (ActionChains.start s)) /\
  (forall s t a rest w ev e,
      tasks s = [(t, AwaitAct a w)] ->
      chains s = {| actions := a :: rest; currentActionIndex := 0 |} ->
      wakes ev (bot s) (t, AwaitAct a w) = true ->
      signal ev = Rejected e ->
      aborted a e s (step ev s)).
Proof.
  split.
  - intros s a rest e s1 Ht Hc Ha.
    unfold ActionChains.start, ActionChains.start_loop.
    rewrite Hc. cbn [actions List.length Nat.eqb].
    change (ActionChains.current (chains (say [Chat (Starting (S (List.length rest)))] s)))
      with (ActionChains.current (chains s)).
    rewrite Hc. cbn [ActionChains.current actions currentActionIndex nth_error].
    pose proof (Action_act_frame a (say [Chat (Starting (S (List.length rest)))] s)) as F.
    rewrite Ha in *. destruct F as (F1 & F2 & _).
    apply start_catch_aborts with (rest := rest).
    + rewrite F1. exact Ht.
    + rewrite F2. exact Hc.
  - intros s t a rest w ev e Ht Hc Hw Hs.
    rewrite (step_one ev s _ Ht), Hw. cbn [resume].
    rewrite Hs, Action_resume_rejected.
    exact (start_catch_aborts a rest e
             (set_tasks [] (set_bot (emit ev [(t, AwaitAct a w)] (bot s)) s))
             eq_refl Hc).
Qed.

(** Witness for C2: a walk that times out with two actions behind it, and
    the cake that is not there. *)
Lemma first_failure_aborts_the_run_witness :
  let walk := {| oid := 0; fields := MoveToPosition (JsNumber 1) (JsNumber 2) (JsNumber 3) |} in
  let eat := {| oid := 1; fields := Eat (JsString "bread") |} in
  let cake := {| oid := 2; fields := Eat (JsString "cake") |} in
  let waiting :=
    {| bot := home; output := [];
       chains := {| actions := [walk; eat; cake]; currentActionIndex := 0 |};
       tasks := [(3, AwaitAct walk (OnGoalReached 30000))];
       attackTick := []; nextId := 4 |} in
  let fresh :=
    {| bot := home; output := [];
       chains := {| actions := [cake; walk; eat]; currentActionIndex := 0 |};
       tasks := []; attackTick := []; nextId := 3 |} in
  aborted walk MoveTimeout waiting (step (timeout 3) waiting) /\
  aborted cake (ItemNotFound (JsString "cake"))
          (say [Chat (Starting 3); Chat (Eating (JsString "cake"));
                Console (CannotEat (JsString "cake"))] fresh)
          (ActionChains.start fresh).
Proof.
  cbv zeta. split.
  - eapply (proj2 first_failure_aborts_the_run); reflexivity.
  - eapply (proj1 first_failure_aborts_the_run); reflexivity.
Defined.



(** C4, as the code has it.  [AiBot.act] awaits [generateContent] outside
    any [try]: when the planner call throws, [act()] is rejected on the
    spot.  Nothing is written, no timer is set, and the loop has no
    coroutine left: whatever happens afterwards, the planner is never
    asked again. *)
Theorem planner_failure_ends_the_AiBot_loop :
  forall s t p e,
    loop_tasks s = [(t, AwaitPlanner p)] ->
    let s' := step (answered t (inl e)) s in
    output s' = output s /\
    forall evs, loop_tasks (run evs s') = [] /\ timers (run evs s') = [].
Proof.
  intros s t p e H.
  assert (W : filter (wakes (answered t (inl e)) (bot s)) (tasks s) =
              [(t, AwaitPlanner p)]).
  { rewrite (filter_through _ (fun tk => is_loop (snd tk)))
      by (intros x; apply wakes_answered_is_loop).
    fold (loop_tasks s). rewrite H. cbn. rewrite Nat.eqb_refl. reflexivity. }
  assert (D : loop_tasks (step (answered t (inl e)) s) = [] /\
              output (step (answered t (inl e)) s) = output s).
  { unfold step. rewrite partition_as_filter, W. cbn [fold_left resume].
    split; [|reflexivity].
    unfold loop_tasks. cbn [tasks set_tasks]. rewrite filter_swap.
    fold (loop_tasks s). rewrite H. cbn. rewrite Nat.eqb_refl. reflexivity. }
  destruct D as (D1 & D2). cbv zeta. split; [exact D2|].
  intros evs. pose proof (run_loop_dead evs _ D1) as R. split; [exact R|].
  unfold timers. unfold loop_tasks in R.
  induction (tasks (run evs (step (answered t (inl e)) s))) as [|[t' k] ts IH];
    [reflexivity|].
  cbn [filter snd] in R. cbn [flat_map snd].
  destruct k as [o w|o [|resp]|p'|ms]; cbn [is_loop] in R; try discriminate;
    cbn; auto.
Qed.

Lemma planner_failure_ends_the_AiBot_loop_witness :
  let s' := step (answered 0 (inl (Foreign "oracle unreachable")))
                 (AiBot.act (spawned home)) in
  output s' = output (AiBot.act (spawned home)) /\
  loop_tasks (run [timeout 0; goal_reached; physicsTick] s') = [].
Proof.
  cbv zeta.
  destruct (planner_failure_ends_the_AiBot_loop
              (AiBot.act (spawned home)) 0 [] (Foreign "oracle unreachable")
              eq_refl) as (H1 & H2).
  split; [exact H1|]. apply H2.
Defined.

(** The sibling loop of agent.ts has the [try]/[catch] that [AiBot.act]
    lacks: a planner failure is reported and the next cycle begins. *)
Lemma agent_loop_survives_planner_failure :
  forall l e,
    Agent.phase l = Agent.AwaitDecide ->
    Agent.controlLoopActive l = true -> Agent.stopRequested l = false ->
    let l' := Agent.step (Agent.decided (inl e)) l in
    Agent.phase l' = Agent.AwaitDecide /\
    Agent.errors l' = Agent.errors l ++ [e].
Proof.
  intros l e Hp Ha Hs. unfold Agent.step. rewrite Hp.
  unfold Agent.loop_test. cbn. rewrite Ha, Hs. cbn. auto.
Qed.

(** What [reset()] does when it does not have to wait: with no current
    action, with an eat action, with no goal to drop, or with a pathfinder
    that raises, it returns at once, the list cleared and the bot as it
    was. *)
Lemma reset_at_once s :
  (forall o, ActionChains.current (chains s) = Some o ->
             (exists i, fields o = Eat i) \/ goal (bot s) = None \/
             fault (bot s) <> None) ->
  exists s1, ActionChains.reset s = ResetDone s1 /\
             chains s1 = ActionChains.empty /\ bot s1 = bot s.
Proof.
  intros H. unfold ActionChains.reset.
  destruct (ActionChains.current (chains s)) as [o|]; [|eauto].
  assert (G : forall s0 : State,
             bot s0 = bot s ->
             (goal (bot s) = None \/ fault (bot s) <> None) ->
             exists s1,
               match
                 match goal (bot s0) with
                 | Some _ => match setGoal None (bot s0) with
                             | inl e => CancelThrew e s0
                             | inr b => CancelSuspended (set_bot b s0)
                             end
                 | None => CancelReturned s0
                 end
               with
               | CancelReturned s' => ResetDone (ActionChains.clear s')
               | CancelThrew e s' =>
                   ResetDone
                     (ActionChains.clear
                        (say [Console (FailedToCancel (Action_toJSON o) e)] s'))
               | CancelSuspended s' => ResetWaiting o s'
               end = ResetDone s1 /\
               chains s1 = ActionChains.empty /\ bot s1 = bot s).
  { intros s0 B K. unfold setGoal. rewrite B.
    destruct (goal (bot s)) as [g|]; [|eauto].
    destruct K as [K|K]; [discriminate|].
    destruct (fault (bot s)) as [m|]; [eauto|contradiction K; reflexivity]. }
  destruct (H o eq_refl) as [(i & E)|K].
  - unfold Action_cancel. rewrite E. cbn. eauto.
  - unfold Action_cancel. destruct (fields o).
    + apply G; auto.
    + cbn. eauto.
    + unfold FollowAndAttackAction.cancel, stop.
      destruct (lookup (oid o) (attackTick s)); apply G; auto.
    + apply G; auto.
Qed.

(** When the cursor is on an action that is not an eat action, the
    pathfinder has a goal and takes the directive to drop it, [reset()]
    waits, the list still as it was and the goal dropped. *)
Lemma reset_has_to_wait s o :
  ActionChains.current (chains s) = Some o ->
  (forall i, fields o <> Eat i) ->
  goal (bot s) <> None -> fault (bot s) = None ->
  exists s', ActionChains.reset s = ResetWaiting o s' /\
             chains s' = chains s /\ goal (bot s') = None.
Proof.
  intros Hc He Hg Hf. unfold ActionChains.reset. rewrite Hc.
  assert (G : forall s0 : State,
             bot s0 = bot s -> chains s0 = chains s ->
             exists s',
               match
                 match goal (bot s0) with
                 | Some _ => match setGoal None (bot s0) with
                             | inl e => CancelThrew e s0
                             | inr b => CancelSuspended (set_bot b s0)
                             end
                 | None => CancelReturned s0
                 end
               with
               | CancelReturned s' => ResetDone (ActionChains.clear s')
               | CancelThrew e s' =>
                   ResetDone
                     (ActionChains.clear
                        (say [Console (FailedToCancel (Action_toJSON o) e)] s'))
               | CancelSuspended s' => ResetWaiting o s'
               end = ResetWaiting o s' /\
               chains s' = chains s /\ goal (bot s') = None).
  { intros s0 B C. unfold setGoal. rewrite B, Hf.
    destruct (goal (bot s)) as [g|]; [|contradiction Hg; reflexivity].
    eexists. split; [reflexivity|]. split; [exact C|reflexivity]. }
  unfold Action_cancel. destruct (fields o) as [x y z|i|e|x y z].
  - apply G; reflexivity.
  - contradiction (He i). reflexivity.
  - unfold FollowAndAttackAction.cancel, stop.
    destruct (lookup (oid o) (attackTick s)); apply G; reflexivity.
  - apply G; reflexivity.
Qed.

(** C5.  [reset()] returns at once, with no event, unless it has to wait
    for the pathfinder to drop a goal: on an idle executor it changes
    nothing; on an executor whose current action is an eat action (a meal
    in flight included) it clears the list and the cursor and changes
    nothing else; and so it does, leaving the bot as it was, when there is
    no goal to drop or the pathfinder raises.  Otherwise it waits with the
    list still in place, and the "path_reset" that ends the wait leaves
    the list cleared.  Whenever [reset()] has returned, at once or after
    its wait, the executor is idle with nothing pending, and a second
    [reset()] finds it idle, returns at once and leaves it so. *)
Theorem reset_is_idempotent :
  (forall s, idle s -> ActionChains.reset s = ResetDone s /\ pending s = []) /\
  (forall s s1,
      ActionChains.reset s = ResetDone s1 ->
      idle s1 /\ pending s1 = [] /\ ActionChains.reset s1 = ResetDone s1) /\
  (forall s t o,
      let s1 := resume path_reset (t, AwaitCancel o CatchOfStart) s in
      idle s1 /\ pending s1 = [] /\ ActionChains.reset s1 = ResetDone s1) /\
  (forall s o i,
      ActionChains.current (chains s) = Some o -> fields o = Eat i ->
      ActionChains.reset s = ResetDone (ActionChains.clear s) /\
      idle (ActionChains.clear s) /\ pending (ActionChains.clear s) = [] /\
      tasks (ActionChains.clear s) = tasks s /\
      ActionChains.reset (ActionChains.clear s) =
        ResetDone (ActionChains.clear s)) /\
  (forall s,
      (forall o, ActionChains.current (chains s) = Some o ->
                 (exists i, fields o = Eat i) \/ goal (bot s) = None \/
                 fault (bot s) <> None) ->
      exists s1,
        ActionChains.reset s = ResetDone s1 /\ bot s1 = bot s /\
        idle s1 /\ pending s1 = [] /\ ActionChains.reset s1 = ResetDone s1) /\
  (forall s o,
      ActionChains.current (chains s) = Some o ->
      (forall i, fields o <> Eat i) ->
      goal (bot s) <> None -> fault (bot s) = None ->
      exists s',
        ActionChains.reset s = ResetWaiting o s' /\
        pending s' = pending s /\
        forall t,
          let s1 := step path_reset
                         (set_tasks [(t, AwaitCancel o CatchOfStart)] s') in
          tasks s1 = [] /\ idle s1 /\ pending s1 = [] /\
          ActionChains.reset s1 = ResetDone s1).
Proof.
  assert (I : forall s, idle s -> ActionChains.reset s = ResetDone s /\ pending s = []).
  { intros s H. unfold idle in H. unfold ActionChains.reset, pending.
    rewrite H. cbn. split; [|reflexivity].
    unfold ActionChains.clear, set_chains. rewrite <- H.
    destruct s; reflexivity. }
  split; [exact I|]. split; [|split; [|split; [|split]]].
  - intros s s1 H. pose proof (reset_frame s) as F. rewrite H in F.
    destruct F as (F & _). split; [exact F|].
    destruct (I s1 F). auto.
  - intros s t o. cbn. assert (F : idle (ActionChains.clear s)) by reflexivity.
    split; [exact F|]. destruct (I _ F). auto.
  - intros s o i Hc He.
    assert (F : idle (ActionChains.clear s)) by reflexivity.
    destruct (I _ F) as (I1 & I2).
    split; [|split; [exact F|split; [exact I2|split; [reflexivity|exact I1]]]].
    unfold ActionChains.reset, Action_cancel. rewrite Hc, He. reflexivity.
  - intros s H. destruct (reset_at_once s H) as (s1 & R & C & B).
    exists s1. destruct (I s1 C) as (I1 & I2). auto.
  - intros s o Hc He Hg Hf.
    destruct (reset_has_to_wait s o Hc He Hg Hf) as (s' & R & C & G).
    exists s'. split; [exact R|]. split; [unfold pending; rewrite C; reflexivity|].
    intros t s1.
    assert (E : s1 = ActionChains.clear
                       (set_tasks [] (set_bot (bot s') s'))).
    { unfold s1.
      rewrite (step_one path_reset
                        (set_tasks [(t, AwaitCancel o CatchOfStart)] s')
                        (t, AwaitCancel o CatchOfStart) eq_refl).
      reflexivity. }
    assert (F : idle s1) by (rewrite E; reflexivity).
    destruct (I _ F) as (I1 & I2).
    split; [rewrite E; reflexivity|]. auto.
Qed.

Lemma reset_is_idempotent_witness :
  ActionChains.reset (spawned home) = ResetDone (spawned home) /\
  idle (ActionChains.clear eating) /\
  ActionChains.reset (ActionChains.clear eating) =
    ResetDone (ActionChains.clear eating) /\
  (ActionChains.reset eating = ResetDone (ActionChains.clear eating) /\
   pending eating <> [] /\ pending (ActionChains.clear eating) = [] /\
   running (ActionChains.clear eating) =
     [{| oid := 0; fields := Eat (JsString "bread") |}]) /\
  (exists s',
      ActionChains.reset walking =
        ResetWaiting
          {| oid := 0;
             fields := MoveToPosition (JsNumber 1) (JsNumber 2) (JsNumber 3) |} s' /\
      pending s' = pending walking /\ pending walking <> [] /\
      let s1 := step path_reset
                     (set_tasks
                        [(9, AwaitCancel
                               {| oid := 0;
                                  fields := MoveToPosition (JsNumber 1) (JsNumber 2)
                                                           (JsNumber 3) |}
                               CatchOfStart)] s') in
      idle s1 /\ pending s1 = [] /\ ActionChains.reset s1 = ResetDone s1) /\
  (exists s1,
      ActionChains.reset stuck_walk = ResetDone s1 /\
      bot s1 = bot stuck_walk /\ idle s1 /\ pending stuck_walk <> []).
Proof.
  split; [|split; [|split; [|split; [|split]]]].
  - apply (proj1 reset_is_idempotent). reflexivity.
  - assert (H : ActionChains.reset eating = ResetDone (ActionChains.clear eating))
      by reflexivity.
    exact (proj1 (proj1 (proj2 reset_is_idempotent) _ _ H)).
  - assert (H : ActionChains.reset eating = ResetDone (ActionChains.clear eating))
      by reflexivity.
    exact (proj2 (proj2 (proj1 (proj2 reset_is_idempotent) _ _ H))).
  - destruct (proj1 (proj2 (proj2 (proj2 reset_is_idempotent)))
                eating {| oid := 0; fields := Eat (JsString "bread") |}
                (JsString "bread") eq_refl eq_refl) as (H1 & _ & H3 & _).
    split; [exact H1|]. split; [discriminate|]. split; [exact H3|reflexivity].
  - destruct (proj2 (proj2 (proj2 (proj2 (proj2 reset_is_idempotent))))
                walking
                {| oid := 0;
                   fields := MoveToPosition (JsNumber 1) (JsNumber 2) (JsNumber 3) |})
      as (s' & R & P & K).
    + reflexivity.
    + intros i. discriminate.
    + discriminate.
    + reflexivity.
    + exists s'. split; [exact R|]. split; [exact P|]. split; [discriminate|].
      destruct (K 9) as (_ & K2 & K3 & K4). auto.
  - destruct (proj1 (proj2 (proj2 (proj2 (proj2 reset_is_idempotent)))) stuck_walk)
      as (s1 & R & B & I & _).
    + intros o _. right. right. discriminate.
    + exists s1. split; [exact R|]. split; [exact B|]. split; [exact I|discriminate].
Defined.

(** C6.  [cancel()] of an eat action returns without an error and leaves
    the whole state as it was: the bot, the output and the [act()] that
    waits for [bot.consume()].  When the consume directive completes, it
    still wakes that [act()], which returns normally. *)
Theorem eat_cancel_is_a_no_op :
  forall o itemName s,
    fields o = Eat itemName ->
    Action_cancel o s = CancelReturned s /\
    forall t,
      wakes (settled t Resolved) (bot s) (t, AwaitAct o OnConsume) = true /\
      Action_resume o OnConsume (signal (settled t Resolved)) s = ActFulfilled s.
Proof.
  intros o itemName s H. unfold Action_cancel, Action_resume. rewrite H.
  split; [reflexivity|]. intros t. cbn. rewrite Nat.eqb_refl. auto.
Qed.

Lemma eat_cancel_is_a_no_op_witness :
  Action_cancel {| oid := 0; fields := Eat (JsString "bread") |} eating =
    CancelReturned eating /\
  running (step (settled 1 Resolved) eating) = [].
Proof.
  split.
  - apply (eat_cancel_is_a_no_op {| oid := 0; fields := Eat (JsString "bread") |}
                                 (JsString "bread") eating eq_refl).
  - reflexivity.
Defined.

(** C7, counterexample.  In bot.ts the tool call for an entity that is
    not in the world is answered with a console line and a plain
    [return]: the promise is fulfilled, nothing fails. *)
Lemma followAndAttack_v1_returns_normally :
  let w := {| BotV1.v1_bot := home; BotV1.v1_output := [];
              BotV1.v1_listening := [] |} in
  BotV1.followAndAttack (JsNumber 7) w =
    inr {| BotV1.v1_bot := home;
           BotV1.v1_output := [Chat (FollowingAndAttacking (JsNumber 7));
                               Console (CannotFollowAndAttack (JsNumber 7))];
           BotV1.v1_listening := [] |}.
Proof. reflexivity. Qed.

(** C7, amended.  [FollowAndAttackAction.act] on an entity that is not in
    the world throws [Entity <id> not found] before it sets a goal or
    waits for anything; the older [AiBot.followAndAttack] of bot.ts
    reports it on the console and returns normally. *)
Theorem follow_and_attack_without_target :
  (forall o entityId s,
      fields o = FollowAndAttack entityId ->
      entityAt entityId (bot s) = None ->
      Action_act o s =
        Threw (EntityNotFound entityId)
              (say [Chat (FollowingAndAttacking entityId);
                    Console (CannotFindEntity entityId)] s)) /\
  (forall entityId w,
      entityAt entityId (BotV1.v1_bot w) = None ->
      BotV1.followAndAttack entityId w =
        inr (BotV1.v1_say [Chat (FollowingAndAttacking entityId);
                           Console (CannotFollowAndAttack entityId)] w)).
Proof.
  split.
  - intros o entityId s Ho He.
    unfold Action_act, FollowAndAttackAction.act. rewrite Ho.
    cbn [bot say]. rewrite He. f_equal.
    unfold say. cbn. rewrite <- app_assoc. reflexivity.
  - intros entityId w He. unfold BotV1.followAndAttack.
    cbn [BotV1.v1_bot BotV1.v1_say]. rewrite He. f_equal.
    unfold BotV1.v1_say. cbn. rewrite <- app_assoc. reflexivity.
Qed.

Lemma follow_and_attack_without_target_witness :
  let o := {| oid := 0; fields := FollowAndAttack (JsNumber 7) |} in
  Action_act o (spawned home) =
    Threw (EntityNotFound (JsNumber 7))
          (say [Chat (FollowingAndAttacking (JsNumber 7));
                Console (CannotFindEntity (JsNumber 7))] (spawned home)) /\
  bot (say [Chat (FollowingAndAttacking (JsNumber 7));
            Console (CannotFindEntity (JsNumber 7))] (spawned home)) = home.
Proof.
  cbv zeta. split.
  - apply (proj1 follow_and_attack_without_target); reflexivity.
  - reflexivity.
Defined.

(** C8, counterexample.  The description of a dig action names a tool
    that [addAction] does not know: it is reported as unknown and no
    action is built. *)
Lemma dig_block_is_not_rebuilt :
  let d := describe (DigBlock (JsNumber 1) (JsNumber 2) (JsNumber 3)) in
  let s := AiBot.addAction (action d) (args d) (spawned home) in
  actions (chains s) = [] /\
  output s = [Console (AddingAction "dig_block" (args d));
              Console (UnknownToolCall "dig_block")].
Proof. cbv zeta. split; reflexivity. Qed.

(** C8, amended.  For a move, an eat and a follow-and-attack action, the
    name and the arguments of its [toJSON] output, given to [addAction],
    put an action of the same class with the same parameters at the end
    of the list. *)
Theorem describe_then_addAction_round_trip :
  forall a s,
    (forall x y z, a <> DigBlock x y z) ->
    chains (AiBot.addAction (action (describe a)) (args (describe a)) s) =
      ActionChains.add {| oid := nextId s; fields := a |} (chains s).
Proof.
  intros a s H. destruct a as [x y z|i|i|x y z]; try reflexivity.
  contradiction (H x y z). reflexivity.
Qed.

Lemma describe_then_addAction_round_trip_witness :
  chains (AiBot.addAction "eat" [("itemName", JsString "bread")] (spawned home)) =
    {| actions := [{| oid := 0; fields := Eat (JsString "bread") |}];
       currentActionIndex := 0 |}.
Proof.
  apply (describe_then_addAction_round_trip (Eat (JsString "bread")) (spawned home)).
  intros x y z. discriminate.
Defined.

(** C9, counterexample.  The planner's first answer has been translated
    and the run started: the timer of the next cycle is already set while
    the first action of the run is still under way. *)
Lemma next_cycle_is_set_while_the_run_is_under_way :
  let s := step (answered 0 (inr first_plan)) (AiBot.act (spawned home)) in
  timers s = [10000%Z] /\
  running s = [{| oid := 1; fields := MoveToPosition (JsNumber 10) (JsNumber 64) (JsNumber 10) |}] /\
  List.length (pending s) = 2.
Proof. cbv zeta. split; [|split]; vm_compute; reflexivity. Qed.

(** C9, amended.  The delay of the next cycle is the constant 10000 ms,
    and the timer is set as soon as the new run has been started: what the
    run has under way at that moment is still under way when the timer is
    set. *)
Theorem next_cycle_is_set_when_the_run_starts :
  forall resp s,
    let started := ActionChains.start (AiBot.translate resp s) in
    let s' := AiBot.act_submit resp s in
    AiBot.LOOP_INTERVAL_MS = 10000%Z /\
    timers s' = timers s ++ [AiBot.LOOP_INTERVAL_MS] /\
    running s' = running started.
Proof.
  intros resp s. cbv zeta. split; [reflexivity|].
  unfold AiBot.act_submit. rewrite spawn_timers, spawn_running, app_nil_r.
  split; [|reflexivity]. f_equal.
  unfold ActionChains.start.
  destruct (start_loop_frame
              (say [Chat (if Nat.eqb (List.length (actions (chains (AiBot.translate resp s)))) 0
                          then NoActionsToPerform
                          else Starting (List.length (actions (chains (AiBot.translate resp s)))))]
                   (AiBot.translate resp s))) as (_ & F & _).
  cbv zeta in F. rewrite F.
  destruct (translate_frame resp s) as (T & _).
  unfold timers. cbn [tasks say]. cbv zeta in T. rewrite T. reflexivity.
Qed.

(** C10.  Whatever [cancel()] does, a [reset()] that returns leaves the
    list empty and the cursor at zero; when [cancel()] throws, the error
    is written to the console with the action's [toJSON] output and the
    list and the cursor are cleared all the same. *)
Theorem reset_clears_even_if_cancel_throws :
  (forall s o e s1,
      ActionChains.current (chains s) = Some o ->
      Action_cancel o s = CancelThrew e s1 ->
      exists s',
        ActionChains.reset s = ResetDone s' /\
        idle s' /\ pending s' = [] /\
        output s' = output s ++ [Console (FailedToCancel (Action_toJSON o) e)]) /\
  (forall s s', ActionChains.reset s = ResetDone s' -> idle s') /\
  (forall s t o k,
      match k with
      | CatchOfStart => idle (resume path_reset (t, AwaitCancel o k) s)
      | CycleOfAct resp =>
          resume path_reset (t, AwaitCancel o k) s =
            AiBot.act_submit resp (ActionChains.clear s)
      end).
Proof.
  split; [|split].
  - intros s o e s1 Hc Ht. unfold ActionChains.reset. rewrite Hc, Ht.
    eexists. split; [reflexivity|].
    pose proof (Action_cancel_frame o s) as F. rewrite Ht in F.
    destruct F as (_ & F & _).
    split; [reflexivity|]. split; [reflexivity|].
    cbn. rewrite F. reflexivity.
  - intros s s' H. pose proof (reset_frame s) as F. rewrite H in F. tauto.
  - intros s t o [|resp]; reflexivity.
Qed.

Lemma reset_clears_even_if_cancel_throws_witness :
  exists s',
    ActionChains.reset stuck_walk = ResetDone s' /\
    idle s' /\ pending s' = [] /\
    output s' =
      output stuck_walk ++
      [Console (FailedToCancel
                  (MoveToPositionAction.toJSON (JsNumber 1) (JsNumber 2) (JsNumber 3))
                  (Foreign "pathfinder is not loaded"))].
Proof.
  apply (proj1 reset_clears_even_if_cancel_throws stuck_walk
           {| oid := 0; fields := MoveToPosition (JsNumber 1) (JsNumber 2) (JsNumber 3) |}
           (Foreign "pathfinder is not loaded") stuck_walk); reflexivity.
Defined.

(** * Beyond the claims: the executor *)

Lemma translate_as_one_pass resp s :
  AiBot.translate resp s =
  fold_left (fun s fc => AiBot.addAction (name fc) (fargs fc) s)
            (named_calls resp) s.
Proof.
  unfold AiBot.translate, named_calls.
  generalize (match resp with Some cands => cands | None => [] end).
  intros cands. revert s.
  induction cands as [|c cands IH]; intros s; [reflexivity|].
  cbn [fold_left flat_map]. rewrite fold_left_app, IH. f_equal.
  generalize (match c with Some parts => parts | None => [] end).
  intros ps. revert s.
  induction ps as [|p ps IHp]; intros s; [reflexivity|].
  cbn [fold_left flat_map]. rewrite fold_left_app, IHp. f_equal.
  destruct p as [fc|]; [|reflexivity].
  destruct (String.eqb (name fc) EmptyString); reflexivity.
Qed.

Lemma addAction_builds fc s :
  let s' := AiBot.addAction (name fc) (fargs fc) s in
  let n := List.length (built_from fc) in
  actions (chains s') =
    actions (chains s) ++
    map (fun a => {| oid := nextId s; fields := a |}) (built_from fc) /\
  currentActionIndex (chains s') = currentActionIndex (chains s) /\
  nextId s' = nextId s + n /\ n <= 1 /\
  tasks s' = tasks s /\ bot s' = bot s.
Proof.
  unfold AiBot.addAction, built_from.
  destruct (String.eqb (name fc) "move_to_position");
    [|destruct (String.eqb (name fc) "eat");
      [|destruct (String.eqb (name fc) "follow_and_attack")]];
    cbn; rewrite ?app_nil_r, ?Nat.add_0_r, ?Nat.add_1_r; repeat split; auto.
Qed.

Lemma add_all_builds calls : forall s,
  let s' := fold_left (fun s fc => AiBot.addAction (name fc) (fargs fc) s) calls s in
  let built := flat_map built_from calls in
  exists new,
    actions (chains s') = actions (chains s) ++ new /\
    map fields new = built /\
    map oid new = seq (nextId s) (List.length built) /\
    currentActionIndex (chains s') = currentActionIndex (chains s) /\
    nextId s' = nextId s + List.length built.
Proof.
  induction calls as [|fc calls IH]; intros s; cbn zeta.
  - exists []. cbn. rewrite app_nil_r, Nat.add_0_r. auto.
  - cbn [fold_left flat_map].
    destruct (addAction_builds fc s) as (A1 & A2 & A3 & A4 & _).
    cbv zeta in A1, A2, A3, A4.
    destruct (IH (AiBot.addAction (name fc) (fargs fc) s))
      as (new & I1 & I2 & I3 & I4 & I5). cbv zeta in I1, I2, I3, I4, I5.
    exists (map (fun a => {| oid := nextId s; fields := a |}) (built_from fc) ++ new).
    rewrite I1, A1, <- app_assoc, !map_app, I2, I3, I4, A2, I5, A3.
    rewrite length_app, seq_app, !map_map. cbn [fields oid].
    rewrite map_id. repeat split; auto; [|lia].
    f_equal. destruct (built_from fc) as [|a [|b l]]; cbn in *; try reflexivity; lia.
Qed.

(** X1: translation keeps every call it knows.  The actions that one
    answer adds to the list are, in the planner's order, exactly those
    that [addAction] builds for the calls named [move_to_position], [eat]
    or [follow_and_attack]; a call with another name is dropped and the
    calls after it are still translated.  Each new action is a new object
    (identities are consecutive and fresh) and the cursor does not move. *)
Theorem translate_keeps_every_known_call :
  forall resp s,
    let s' := AiBot.translate resp s in
    let built := flat_map built_from (named_calls resp) in
    exists new,
      actions (chains s') = actions (chains s) ++ new /\
      map fields new = built /\
      map oid new = seq (nextId s) (List.length built) /\
      currentActionIndex (chains s') = currentActionIndex (chains s).
Proof.
  intros resp s. cbv zeta. rewrite translate_as_one_pass.
  destruct (add_all_builds (named_calls resp) s) as (new & H1 & H2 & H3 & H4 & _).
  exists new. auto.
Qed.

(** X2: when [reset()] has to wait.  [reset()] suspends, waiting for
    "path_reset" with no time limit, exactly when the cursor is on an
    action that is not an eat action while the pathfinder has a goal and
    takes the directive to drop it; in every other state it returns at
    once. *)
Theorem reset_waits_exactly_for_a_goal :
  forall s,
    (exists o s', ActionChains.reset s = ResetWaiting o s') <->
    (exists o, ActionChains.current (chains s) = Some o /\
               (forall i, fields o <> Eat i) /\
               goal (bot s) <> None /\ fault (bot s) = None).
Proof.
  intros s. unfold ActionChains.reset.
  assert (G : forall s0 : State, bot s0 = bot s ->
            (exists s',
               match goal (bot s0) with
               | Some _ => match setGoal None (bot s0) with
                           | inl e => CancelThrew e s0
                           | inr b => CancelSuspended (set_bot b s0)
                           end
               | None => CancelReturned s0
               end = CancelSuspended s') <->
            (goal (bot s) <> None /\ fault (bot s) = None)).
  { intros s0 E. rewrite E. unfold setGoal.
    destruct (goal (bot s)) as [g|], (fault (bot s)) as [m|]; split;
      try (intros (s' & H); discriminate);
      try (intros (H1 & H2); congruence).
    - intros _. split; [discriminate|reflexivity].
    - intros _. eexists. reflexivity. }
  destruct (ActionChains.current (chains s)) as [o|];
    [|split; [intros (o & s' & H); discriminate|intros (o & H & _); discriminate]].
  assert (C : (exists s', Action_cancel o s = CancelSuspended s') <->
              ((forall i, fields o <> Eat i) /\
               goal (bot s) <> None /\ fault (bot s) = None)).
  { unfold Action_cancel.
    destruct (fields o) as [x y z|i|i|x y z].
    - unfold MoveToPositionAction.cancel. pose proof (G s eq_refl) as Gs.
      split; [intros H; apply Gs in H; split; [discriminate|exact H]
             |intros (_ & H); apply Gs; exact H].
    - split; [intros (s' & H); discriminate
             |intros (H & _); contradiction (H i); reflexivity].
    - unfold FollowAndAttackAction.cancel, stop.
      destruct (lookup (oid o) (attackTick s)) as [l|].
      + pose proof (G (removeListener l s) eq_refl) as Gs.
        split; [intros H; apply Gs in H; split; [discriminate|exact H]
               |intros (_ & H); apply Gs; exact H].
      + pose proof (G s eq_refl) as Gs.
        split; [intros H; apply Gs in H; split; [discriminate|exact H]
               |intros (_ & H); apply Gs; exact H].
    - unfold DigBlockAction.cancel. pose proof (G s eq_refl) as Gs.
      split; [intros H; apply Gs in H; split; [discriminate|exact H]
             |intros (_ & H); apply Gs; exact H]. }
  split.
  - intros (o' & s' & H). exists o. split; [reflexivity|]. apply C.
    destruct (Action_cancel o s) as [s1|e s1|s1]; try discriminate. eauto.
  - intros (o' & H & R). injection H as <-. apply C in R. destruct R as (s' & R).
    rewrite R. eauto.
Qed.

(** ** A [start()] left behind by [FollowAndAttackAction.cancel] *)

Lemma removeListener_keeps_orphan l t o s :
  In (t, AwaitAct o Orphaned) (tasks s) ->
  In (t, AwaitAct o Orphaned) (tasks (removeListener l s)).
Proof.
  intros H. rewrite removeListener_tasks.
  apply in_map_iff. exists (t, AwaitAct o Orphaned). split; [reflexivity|exact H].
Qed.

Lemma Action_cancel_keeps_orphan a t o s :
  In (t, AwaitAct o Orphaned) (tasks s) ->
  match Action_cancel a s with
  | CancelReturned s' | CancelThrew _ s' | CancelSuspended s' =>
      In (t, AwaitAct o Orphaned) (tasks s')
  end.
Proof.
  intros H.
  assert (G : forall s0 : State,
             In (t, AwaitAct o Orphaned) (tasks s0) ->
             match
               match goal (bot s0) with
               | Some _ => match setGoal None (bot s0) with
                           | inl e => CancelThrew e s0
                           | inr b => CancelSuspended (set_bot b s0)
                           end
               | None => CancelReturned s0
               end
             with
             | CancelReturned s' | CancelThrew _ s' | CancelSuspended s' =>
                 In (t, AwaitAct o Orphaned) (tasks s')
             end).
  { intros s0 H0. destruct (goal (bot s0)); [|exact H0].
    destruct (setGoal None (bot s0)); exact H0. }
  unfold Action_cancel. destruct (fields a).
  - apply G, H.
  - exact H.
  - unfold FollowAndAttackAction.cancel, stop.
    destruct (lookup (oid a) (attackTick s)); apply G; auto.
    apply removeListener_keeps_orphan, H.
  - apply G, H.
Qed.

Lemma reset_keeps_orphan t o s :
  In (t, AwaitAct o Orphaned) (tasks s) ->
  match ActionChains.reset s with
  | ResetDone s' | ResetWaiting _ s' => In (t, AwaitAct o Orphaned) (tasks s')
  end.
Proof.
  intros H. unfold ActionChains.reset.
  destruct (ActionChains.current (chains s)) as [a|]; [|exact H].
  pose proof (Action_cancel_keeps_orphan a t o s H) as F.
  destruct (Action_cancel a s); exact F.
Qed.

Lemma spawn_keeps k x s : In x (tasks s) -> In x (tasks (spawn k s)).
Proof. intros H. unfold spawn. cbn. apply in_or_app. left. exact H. Qed.

Lemma start_catch_keeps_orphan a e t o s :
  In (t, AwaitAct o Orphaned) (tasks s) ->
  In (t, AwaitAct o Orphaned) (tasks (ActionChains.start_catch a e s)).
Proof.
  intros H. unfold ActionChains.start_catch.
  set (s1 := say _ s).
  pose proof (reset_keeps_orphan t o s1 H) as F.
  destruct (ActionChains.reset s1); [exact F|apply spawn_keeps, F].
Qed.

Lemma start_loop_keeps_orphan t o s :
  In (t, AwaitAct o Orphaned) (tasks s) ->
  In (t, AwaitAct o Orphaned) (tasks (ActionChains.start_loop s)).
Proof.
  intros H. unfold ActionChains.start_loop.
  destruct (ActionChains.current (chains s)) as [a|]; [|exact H].
  pose proof (Action_act_frame a s) as F.
  destruct (Action_act a s) as [e s1|w s1]; destruct F as (F & _).
  - apply start_catch_keeps_orphan. rewrite F. exact H.
  - apply spawn_keeps. rewrite F. exact H.
Qed.

Lemma act_submit_keeps_orphan resp t o s :
  In (t, AwaitAct o Orphaned) (tasks s) ->
  In (t, AwaitAct o Orphaned) (tasks (AiBot.act_submit resp s)).
Proof.
  intros H. unfold AiBot.act_submit, ActionChains.start.
  apply spawn_keeps, start_loop_keeps_orphan. cbn [tasks say].
  destruct (translate_frame resp s) as (T & _). cbv zeta in T. rewrite T. exact H.
Qed.

Lemma resume_keeps_orphan ev tk t o s :
  In (t, AwaitAct o Orphaned) (tasks s) ->
  In (t, AwaitAct o Orphaned) (tasks (resume ev tk s)).
Proof.
  intros H. destruct tk as [t' [a w|a [|resp]|p|ms]]; cbn [resume].
  - destruct (Action_resume_cases a w (signal ev) s) as [F|[(e & _ & F)|(w' & F)]];
      rewrite F.
    + apply start_loop_keeps_orphan. exact H.
    + apply start_catch_keeps_orphan. exact H.
    + unfold park. cbn. apply in_or_app. left. exact H.
  - exact H.
  - apply act_submit_keeps_orphan. exact H.
  - destruct ev as [| | | | |?|? [e|resp]]; try exact H.
    unfold AiBot.act_answered.
    pose proof (reset_keeps_orphan t o s H) as F.
    destruct (ActionChains.reset s);
      [apply act_submit_keeps_orphan, F|apply spawn_keeps, F].
  - unfold AiBot.act. apply spawn_keeps. exact H.
Qed.

Lemma wakes_orphan ev b t o : wakes ev b (t, AwaitAct o Orphaned) = false.
Proof. destruct ev; reflexivity. Qed.

Lemma step_keeps_orphan ev t o s :
  In (t, AwaitAct o Orphaned) (tasks s) ->
  In (t, AwaitAct o Orphaned) (tasks (step ev s)).
Proof.
  intros H. unfold step. rewrite partition_as_filter.
  assert (R : In (t, AwaitAct o Orphaned)
                 (tasks (set_tasks
                           (filter (fun x => negb (wakes ev (bot s) x)) (tasks s))
                           (set_bot (emit ev (filter (wakes ev (bot s)) (tasks s)) (bot s)) s)))).
  { cbn. apply filter_In. split; [exact H|]. rewrite wakes_orphan. reflexivity. }
  revert R. generalize (set_tasks
                           (filter (fun x => negb (wakes ev (bot s) x)) (tasks s))
                           (set_bot (emit ev (filter (wakes ev (bot s)) (tasks s)) (bot s)) s)).
  induction (filter (wakes ev (bot s)) (tasks s)) as [|tk woken IH]; intros s0 R;
    [exact R|].
  cbn [fold_left]. apply IH, resume_keeps_orphan, R.
Qed.

(** X3: a cancelled follow-and-attack is never heard of again.  When
    [cancel()] of a follow-and-attack action removes the attack listener
    that its [act()] is waiting on, nothing is left that could settle that
    promise: whatever happens afterwards, the [start()] that awaits it is
    never resumed, and the action stays among the running ones. *)
Theorem cancelled_follow_never_returns :
  forall s t o e l entityId,
    fields o = FollowAndAttack entityId ->
    In (t, AwaitAct o (OnAttackTick e l)) (tasks s) ->
    lookup (oid o) (attackTick s) = Some l ->
    forall s', (Action_cancel o s = CancelReturned s' \/
                (exists err, Action_cancel o s = CancelThrew err s') \/
                Action_cancel o s = CancelSuspended s') ->
    forall evs,
      In (t, AwaitAct o Orphaned) (tasks (run evs s')) /\
      In o (running (run evs s')).
Proof.
  intros s t o e l entityId Ho Ht Hl s' Hc evs.
  assert (H0 : In (t, AwaitAct o Orphaned) (tasks s')).
  { assert (R : In (t, AwaitAct o Orphaned) (tasks (removeListener l s))).
    { rewrite removeListener_tasks. apply in_map_iff.
      exists (t, AwaitAct o (OnAttackTick e l)). rewrite Nat.eqb_refl. auto. }
    unfold Action_cancel, FollowAndAttackAction.cancel, stop in Hc.
    rewrite Ho, Hl in Hc.
    destruct (goal (bot (removeListener l s))).
    - destruct (setGoal None (bot (removeListener l s)));
        destruct Hc as [Hc|[(err & Hc)|Hc]]; try discriminate;
        injection Hc; intros; subst; exact R.
    - destruct Hc as [Hc|[(err & Hc)|Hc]]; try discriminate.
      injection Hc; intros; subst; exact R. }
  assert (K : In (t, AwaitAct o Orphaned) (tasks (run evs s'))).
  { clear Hc. revert s' H0. induction evs as [|ev evs IH]; intros s' H0; [exact H0|].
    cbn [run fold_left]. apply IH, step_keeps_orphan, H0. }
  split; [exact K|].
  unfold running. apply in_flat_map. exists (t, AwaitAct o Orphaned).
  split; [exact K|left; reflexivity].
Qed.

(** ** The attack listener *)



(** ** The control loop keeps one coroutine *)






(** ** A run that goes well *)

Lemma skipn_S_tl {A} n : forall l : list A, skipn (S n) l = tl (skipn n l).
Proof.
  induction n as [|n IH]; intros l.
  - destruct l; reflexivity.
  - destruct l as [|x l]; [reflexivity|]. apply (IH l).
Qed.

Lemma pending_advance s : pending (ActionChains.advance s) = tl (pending s).
Proof.
  unfold pending, ActionChains.toJSON, ActionChains.advance, set_chains.
  cbn [chains actions currentActionIndex].
  rewrite skipn_S_tl.
  destruct (skipn (currentActionIndex (chains s)) (actions (chains s)));
    reflexivity.
Qed.

(** X6: a success moves the run on by exactly one action.  When the
    [act()] that a lone [start()] awaits returns normally, the cursor
    advances by one and [pending()] loses its first entry.  If that was the
    last action, the run is over: nothing is running, nothing is pending,
    nothing is said, and the list is kept with the cursor at its length
    (it is emptied only by the next [reset()]).  Otherwise the next action,
    and only that one, is started. *)
Theorem success_moves_on_by_one :
  forall s t o w ev,
    tasks s = [(t, AwaitAct o w)] ->
    wakes ev (bot s) (t, AwaitAct o w) = true ->
    let s0 := woken_alone ev (t, AwaitAct o w) s in
    Action_resume o w (signal ev) s0 = ActFulfilled s0 ->
    let s' := step ev s in
    match nth_error (actions (chains s)) (S (currentActionIndex (chains s))) with
    | None =>
        tasks s' = [] /\ output s' = output s /\ pending s' = [] /\
        actions (chains s') = actions (chains s) /\
        currentActionIndex (chains s') = S (currentActionIndex (chains s))
    | Some next =>
        match Action_act next (ActionChains.advance s0) with
        | Suspended w' s1 =>
            running s' = [next] /\ pending s' = tl (pending s) /\
            actions (chains s') = actions (chains s) /\
            currentActionIndex (chains s') = S (currentActionIndex (chains s))
        | Threw e s1 =>
            running s' = [] /\
            (pending s' = [] \/ pending s' = tl (pending s))
        end
    end.
Proof.
  intros s t o w ev Ht Hw s0 Hr s'. subst s'.
  rewrite (step_one _ _ _ Ht), Hw. cbn [resume].
  change (set_tasks [] (set_bot (emit ev [(t, AwaitAct o w)] (bot s)) s)) with s0.
  rewrite Hr.
  unfold ActionChains.start_loop.
  change (ActionChains.current (chains (ActionChains.advance s0)))
    with (nth_error (actions (chains s)) (S (currentActionIndex (chains s)))).
  destruct (nth_error (actions (chains s)) (S (currentActionIndex (chains s))))
    as [next|] eqn:E.
  - pose proof (Action_act_frame next (ActionChains.advance s0)) as F.
    destruct (Action_act next (ActionChains.advance s0)) as [e s1|w' s1];
      destruct F as (F1 & F2 & _).
    + assert (T : tasks s1 = []) by (rewrite F1; reflexivity).
      destruct (start_catch_frame next e s1) as (G1 & _ & _ & _ & G2).
      split; [rewrite G1, (running_of_tasks _ _ T); reflexivity|].
      destruct (G2 T) as [[_ C]|(t' & o' & _ & C)]; unfold pending; rewrite C.
      * left. reflexivity.
      * right. rewrite F2. apply (pending_advance s0).
    + rewrite spawn_running. cbn [chains spawn].
      rewrite (running_of_tasks s1 []) by (rewrite F1; reflexivity).
      split; [reflexivity|]. unfold pending. cbn [chains spawn]. rewrite F2.
      split; [apply (pending_advance s0)|]. split; reflexivity.
  - split; [reflexivity|]. split; [reflexivity|]. split; [|split; reflexivity].
    unfold pending, ActionChains.toJSON, ActionChains.advance, set_chains.
    cbn [chains actions currentActionIndex].
    apply nth_error_None in E. rewrite skipn_all2; [reflexivity|exact E].
Qed.

(** ** Calls that lack an argument, answers that hold no call *)

Lemma prop_absent k (a : Obj) : ~ In k (map fst a) -> prop k a = JsUndefined.
Proof.
  induction a as [|[k' v] a IH]; intros H; [reflexivity|].
  cbn [prop]. destruct (String.eqb k k') eqn:E.
  - apply String.eqb_eq in E. contradiction H. left. symmetry. exact E.
  - apply IH. intros Hin. apply H. right. exact Hin.
Qed.

Lemma find_nothing {A} (f : A -> bool) (l : list A) :
  (forall x, f x = false) -> find f l = None.
Proof.
  intros H. induction l as [|x l IH]; [reflexivity|]. cbn. rewrite H. exact IH.
Qed.

Lemma no_entity_is_called_undefined b : entityAt JsUndefined b = None.
Proof.
  unfold entityAt. apply find_nothing. intros e.
  apply String.eqb_neq. unfold propertyKey.
  destruct (Z.to_int e) as [d|d]; [|discriminate].
  destruct d; discriminate.
Qed.

Lemma no_item_is_undefined b : findItem JsUndefined b = None.
Proof. unfold findItem. apply find_nothing. intros n. reflexivity. Qed.

(** X7: a call that lacks an argument is still turned into an action.
    [addAction] does not look at the arguments it reads: a missing one
    becomes [undefined] in the action.  Such an eat action and such a
    follow-and-attack action fail as soon as they are started, whatever
    the inventory and the world hold; such a move action does not fail, it
    hands the pathfinder a goal with [undefined] coordinates and waits. *)
Theorem calls_without_arguments :
  (forall a s,
      ~ In "itemName" (map fst a) ->
      chains (AiBot.addAction "eat" a s) =
        ActionChains.add {| oid := nextId s; fields := Eat JsUndefined |} (chains s)) /\
  (forall o s,
      fields o = Eat JsUndefined ->
      Action_act o s =
        Threw (ItemNotFound JsUndefined)
              (say [Chat (Eating JsUndefined); Console (CannotEat JsUndefined)] s)) /\
  (forall o s,
      fields o = FollowAndAttack JsUndefined ->
      Action_act o s =
        Threw (EntityNotFound JsUndefined)
              (say [Chat (FollowingAndAttacking JsUndefined);
                    Console (CannotFindEntity JsUndefined)] s)) /\
  (forall o s,
      fields o = MoveToPosition JsUndefined JsUndefined JsUndefined ->
      fault (bot s) = None ->
      exists s',
        Action_act o s = Suspended (OnGoalReached 30000) s' /\
        goal (bot s') = Some (GoalNear JsUndefined JsUndefined JsUndefined 1)).
Proof.
  split; [|split; [|split]].
  - intros a s H. unfold AiBot.addAction. cbn.
    rewrite (prop_absent _ _ H). reflexivity.
  - intros o s H. unfold Action_act, EatAction.act. rewrite H. cbn [bot say].
    rewrite no_item_is_undefined. f_equal. unfold say. cbn.
    rewrite <- app_assoc. reflexivity.
  - intros o s H. unfold Action_act, FollowAndAttackAction.act. rewrite H.
    cbn [bot say]. rewrite no_entity_is_called_undefined. f_equal.
    unfold say. cbn. rewrite <- app_assoc. reflexivity.
  - intros o s H Hf. unfold Action_act, MoveToPositionAction.act, setGoal.
    rewrite H. cbn [bot say]. rewrite Hf. eexists. split; reflexivity.
Qed.

Lemma add_all_output calls : forall s,
  exists logs,
    output (fold_left (fun s fc => AiBot.addAction (name fc) (fargs fc) s) calls s) =
    output s ++ logs.
Proof.
  induction calls as [|fc calls IH]; intros s.
  - exists []. cbn. rewrite app_nil_r. reflexivity.
  - cbn [fold_left].
    destruct (IH (AiBot.addAction (name fc) (fargs fc) s)) as (logs & H).
    rewrite H. unfold AiBot.addAction.
    destruct (String.eqb (name fc) "move_to_position");
      [|destruct (String.eqb (name fc) "eat");
        [|destruct (String.eqb (name fc) "follow_and_attack")]];
      cbn; rewrite <- ?app_assoc; eexists; reflexivity.
Qed.

(** X8: a cycle with nothing to do.  When the planner's answer holds no
    call that [addAction] knows (no candidates, no parts, only text, only
    unknown names) and no action is under way, the cycle still ends as any
    other: the list is left empty, the bot says "No actions to perform.",
    nothing is started, the bot is not touched, and the next cycle is
    scheduled. *)
Theorem cycle_with_nothing_to_do :
  forall s t p resp,
    tasks s = [(t, AwaitPlanner p)] ->
    ActionChains.current (chains s) = None ->
    flat_map built_from (named_calls resp) = [] ->
    let s' := step (answered t (inr resp)) s in
    chains s' = ActionChains.empty /\ running s' = [] /\
    timers s' = [AiBot.LOOP_INTERVAL_MS] /\ bot s' = bot s /\
    exists logs, output s' = output s ++ logs ++ [Chat NoActionsToPerform].
Proof.
  intros s t p resp Ht Hc Hb s'. subst s'.
  rewrite (step_one _ _ _ Ht). cbn [wakes]. rewrite Nat.eqb_refl.
  cbn [resume emit]. unfold AiBot.act_answered, ActionChains.reset.
  cbn [chains set_tasks set_bot]. rewrite Hc.
  unfold AiBot.act_submit.
  set (s1 := ActionChains.clear _).
  destruct (add_all_builds (named_calls resp) s1) as (new & B1 & B2 & _ & B4 & _).
  cbv zeta in B1, B2, B4. rewrite Hb in B2.
  apply map_eq_nil in B2. subst new. rewrite app_nil_r in B1.
  destruct (add_all_output (named_calls resp) s1) as (logs & O).
  rewrite <- translate_as_one_pass in B1, B4, O.
  destruct (translate_frame resp s1) as (T1 & T2 & _). cbv zeta in T1, T2.
  assert (C : chains (AiBot.translate resp s1) = ActionChains.empty).
  { destruct (chains (AiBot.translate resp s1)) as [l i]. cbn in B1, B4.
    subst. reflexivity. }
  unfold ActionChains.start, ActionChains.start_loop. cbn [chains say].
  rewrite C. cbn [ActionChains.current ActionChains.empty actions
                  currentActionIndex nth_error List.length Nat.eqb].
  rewrite spawn_timers, spawn_running. cbn [chains bot output spawn say].
  unfold timers, running. cbn [tasks say]. rewrite T1, T2, C, O. cbn.
  repeat split; auto. exists logs. rewrite <- app_assoc. reflexivity.
Qed.

(** ** Witnesses *)

Lemma reset_waits_exactly_for_a_goal_witness :
  (exists o s', ActionChains.reset hunting = ResetWaiting o s') /\
  ~ (exists o s', ActionChains.reset eating = ResetWaiting o s').
Proof.
  split.
  - apply (proj2 (reset_waits_exactly_for_a_goal hunting)).
    exists {| oid := 0; fields := FollowAndAttack (JsNumber 7) |}.
    split; [reflexivity|]. split; [discriminate|]. split; [discriminate|reflexivity].
  - intros H. apply (proj1 (reset_waits_exactly_for_a_goal eating)) in H.
    destruct H as (o & Ho & He & _). injection Ho as <-.
    apply (He (JsString "bread")). reflexivity.
Defined.

Lemma cancelled_follow_never_returns_witness :
  exists s',
    ActionChains.reset hunting =
      ResetWaiting {| oid := 0; fields := FollowAndAttack (JsNumber 7) |} s' /\
    In {| oid := 0; fields := FollowAndAttack (JsNumber 7) |}
       (running (run [path_reset; entityGone 7; physicsTick; goal_reached] s')).
Proof.
  eexists. split; [reflexivity|].
  apply (cancelled_follow_never_returns
           hunting 2 {| oid := 0; fields := FollowAndAttack (JsNumber 7) |}
           7%Z 1 (JsNumber 7) eq_refl (or_introl eq_refl) eq_refl).
  right; right. reflexivity.
Defined.


Lemma success_moves_on_by_one_witness :
  (tasks (step (settled 1 Resolved) eating) = [] /\
   pending (step (settled 1 Resolved) eating) = [] /\
   currentActionIndex (chains (step (settled 1 Resolved) eating)) = 1) /\
  running (step goal_reached walking) = [{| oid := 1; fields := Eat (JsString "bread") |}].
Proof.
  split.
  - destruct (success_moves_on_by_one
                eating 1 {| oid := 0; fields := Eat (JsString "bread") |}
                OnConsume (settled 1 Resolved) eq_refl eq_refl eq_refl)
      as (H1 & _ & H3 & _ & H5).
    split; [exact H1|]. split; [exact H3|exact H5].
  - apply (success_moves_on_by_one
             walking 2
             {| oid := 0; fields := MoveToPosition (JsNumber 1) (JsNumber 2) (JsNumber 3) |}
             (OnGoalReached 30000) goal_reached eq_refl eq_refl eq_refl).
Defined.

Lemma calls_without_arguments_witness :
  chains (AiBot.addAction "eat" [] (spawned home)) =
    {| actions := [{| oid := 0; fields := Eat JsUndefined |}];
       currentActionIndex := 0 |} /\
  Action_act {| oid := 0; fields := FollowAndAttack JsUndefined |} (spawned haunted) =
    Threw (EntityNotFound JsUndefined)
          (say [Chat (FollowingAndAttacking JsUndefined);
                Console (CannotFindEntity JsUndefined)] (spawned haunted)).
Proof.
  destruct calls_without_arguments as (H1 & _ & H3 & _).
  split.
  - apply (H1 [] (spawned home)). intros [].
  - apply H3. reflexivity.
Defined.

Lemma cycle_with_nothing_to_do_witness :
  let s' := step (answered 0 (inr idle_talk)) (AiBot.act (spawned home)) in
  chains s' = ActionChains.empty /\ running s' = [] /\ timers s' = [10000%Z].
Proof.
  destruct (cycle_with_nothing_to_do
              (AiBot.act (spawned home)) 0 [] idle_talk eq_refl eq_refl eq_refl)
    as (H1 & H2 & H3 & _).
  cbv zeta. auto.
Defined.

(** * Beyond the claims: agent.ts *)

(** X9: the wait tool sleeps between 250 and 5000 ms.  Whenever [Number]
    makes a number of what the call gives for [ms] (1000 when it gives
    nothing), the delay is that number brought into [250, 5000]: the
    number itself when it lies within the bounds.  The bounds are escaped
    only through [Number]: when it gives NaN, whatever the value was, the
    delay is NaN too. *)
Theorem wait_is_bounded :
  forall parse a,
    let n := AgentTools.Number parse
               (AgentTools.orElse (prop "ms" a) (JsNumber 1000)) in
    (forall k, n = Some k ->
               exists ms,
                 AgentTools.wait_ms parse a = Some ms /\
                 (250 <= ms <= 5000)%Z /\
                 ms = Z.min (Z.max k 250) 5000 /\
                 ((250 <= k <= 5000)%Z -> ms = k)) /\
    (n = None -> AgentTools.wait_ms parse a = None) /\
    (prop "ms" a = JsUndefined -> AgentTools.wait_ms parse a = Some 1000%Z).
Proof.
  intros parse a n. unfold AgentTools.wait_ms. fold n. split; [|split].
  - intros k ->. cbn. eexists. split; [reflexivity|]. split; [lia|].
    split; [reflexivity|lia].
  - intros ->. reflexivity.
  - intros H. subst n. rewrite H. reflexivity.
Qed.

(** X10: fleeing keeps at least 8 blocks away.  The distance handed to
    [fleeFrom] is always a number, never below 8; it is 16 when the call
    gives none, gives 0 or gives something that is not a number, and the
    number of the call when that is 8 or more. *)
Theorem flee_keeps_a_distance :
  forall parse a,
    exists d,
      AgentTools.flee_distance parse a = Some d /\ (8 <= d)%Z /\
      (AgentTools.Number parse (prop "minDistance" a) = None -> d = 16%Z) /\
      (AgentTools.Number parse (prop "minDistance" a) = Some 0%Z -> d = 16%Z) /\
      (forall n, AgentTools.Number parse (prop "minDistance" a) = Some n ->
                 (8 <= n)%Z -> d = n).
Proof.
  intros parse a. unfold AgentTools.flee_distance.
  destruct (AgentTools.Number parse (prop "minDistance" a)) as [[|n|n]|];
    cbn [AgentTools.Math_max]; eexists; (split; [reflexivity|]).
  - split; [lia|]. split; [reflexivity|]. split; [reflexivity|].
    intros n H. injection H as <-. lia.
  - split; [lia|]. split; [discriminate|]. split; [discriminate|].
    intros n' H R. injection H as <-. lia.
  - split; [lia|]. split; [discriminate|]. split; [discriminate|].
    intros n' H R. injection H as <-. lia.
  - split; [lia|]. split; [reflexivity|]. split; [reflexivity|].
    intros n H. discriminate.
Qed.

Lemma substring_0_length n : forall s,
  String.length (substring 0 n s) = Nat.min n (String.length s).
Proof.
  induction n as [|n IH]; intros [|c s]; cbn; try reflexivity.
  rewrite IH. reflexivity.
Qed.

Lemma substring_0_prefix n : forall s, prefix (substring 0 n s) s = true.
Proof.
  induction n as [|n IH]; intros [|c s]; cbn; try reflexivity.
  destruct (Ascii.ascii_dec c c) as [_|N]; [apply IH|contradiction N; reflexivity].
Qed.

Lemma substring_0_all n : forall s, String.length s <= n -> substring 0 n s = s.
Proof.
  induction n as [|n IH]; intros [|c s] H; cbn in *; try reflexivity; try lia.
  rewrite IH by lia. reflexivity.
Qed.

(** X11: what the bot says is cut at 120 characters.  The line is the
    beginning of the text of the call, 120 characters at most, and the
    whole text when that is not longer; the bot says nothing exactly when
    the text is missing or empty. *)
Theorem say_is_cut_short :
  forall a,
    let text := AgentTools.toString
                  (AgentTools.orElse (prop "text" a) (JsString EmptyString)) in
    String.length (AgentTools.say_text a) <= 120 /\
    prefix (AgentTools.say_text a) text = true /\
    (String.length text <= 120 -> AgentTools.say_chat a = match text with
                                                          | EmptyString => []
                                                          | _ => [text]
                                                          end) /\
    (AgentTools.say_chat a = [] <-> text = EmptyString) /\
    (prop "text" a = JsUndefined -> AgentTools.say_chat a = []).
Proof.
  intros a text. unfold AgentTools.say_chat, AgentTools.say_text. fold text.
  split; [rewrite substring_0_length; lia|].
  split; [apply substring_0_prefix|].
  split; [intros H; rewrite (substring_0_all _ _ H); destruct text; reflexivity|].
  split.
  - destruct text as [|c t]; cbn; split; auto; discriminate.
  - intros H. subst text. rewrite H. reflexivity.
Qed.

Lemma byName_finds inv n item :
  AgentTools.byName inv n = Some item -> item = n /\ In n inv.
Proof.
  unfold AgentTools.byName. intros H. apply find_some in H.
  destruct H as (H1 & H2). apply String.eqb_eq in H2. subst. auto.
Qed.

Lemma byName_misses inv n :
  AgentTools.byName inv n = None -> ~ In n inv.
Proof.
  unfold AgentTools.byName. intros H Hin.
  apply (find_none _ _ H) in Hin. rewrite String.eqb_refl in Hin. discriminate.
Qed.

Lemma first_by_name_spec inv names :
  match AgentTools.first_by_name inv names with
  | Some item =>
      In item inv /\
      exists before after,
        names = before ++ item :: after /\
        forall n, In n before -> ~ In n inv
  | None => forall n, In n names -> ~ In n inv
  end.
Proof.
  induction names as [|n names IH]; cbn [AgentTools.first_by_name]; [intros n []|].
  destruct (AgentTools.byName inv n) as [item|] eqn:E.
  - apply byName_finds in E. destruct E as (-> & Hin). split; [exact Hin|].
    exists [], names. split; [reflexivity|]. intros m [].
  - apply byName_misses in E.
    destruct (AgentTools.first_by_name inv names) as [item|].
    + destruct IH as (Hin & before & after & -> & Hb). split; [exact Hin|].
      exists (n :: before), after. split; [reflexivity|].
      intros m [<-|Hm]; auto.
    + intros m [<-|Hm]; auto.
Qed.

Lemma getFirstEdible_as_one_search b prefer :
  AgentTools.getFirstEdible b prefer =
  AgentTools.first_by_name (inventory b) (prefer ++ AgentTools.likely).
Proof.
  unfold AgentTools.getFirstEdible.
  induction prefer as [|n prefer IH]; cbn [app AgentTools.first_by_name].
  - destruct (AgentTools.first_by_name (inventory b) AgentTools.likely); reflexivity.
  - destruct (AgentTools.byName (inventory b) n); [reflexivity|exact IH].
Qed.

(** X12: the food that is chosen.  [getFirstEdible] returns the first name,
    in the order "preferred names, then the twelve likely foods", that the
    inventory holds: what it returns is in the inventory, and no name
    before it in that order is.  It returns nothing exactly when the
    inventory holds none of those names; a food that is on neither list is
    never chosen. *)
Theorem getFirstEdible_is_the_first_match :
  forall b prefer,
    match AgentTools.getFirstEdible b prefer with
    | Some item =>
        In item (inventory b) /\
        exists before after,
          prefer ++ AgentTools.likely = before ++ item :: after /\
          forall n, In n before -> ~ In n (inventory b)
    | None =>
        forall n, In n (prefer ++ AgentTools.likely) -> ~ In n (inventory b)
    end.
Proof.
  intros b prefer. rewrite getFirstEdible_as_one_search.
  apply first_by_name_spec.
Qed.

Lemma tools_of_cases resp :
  (named_calls resp = [] /\
   Agent.tools_of resp = [{| name := "wait"; fargs := [("ms", JsNumber 1500)] |}]) \/
  (named_calls resp <> [] /\ Agent.tools_of resp = named_calls resp).
Proof.
  unfold Agent.tools_of. fold (named_calls resp).
  destruct (named_calls resp) as [|fc calls]; [left|right]; split;
    try reflexivity; discriminate.
Qed.

(** X13: [decide] never comes back with nothing.  The tools it returns are
    the named calls of the answer, in order; when the answer holds none,
    it returns the single call [wait 1500], so that every cycle of the
    loop awaits at least one tool. *)
Theorem decide_always_returns_a_tool :
  forall resp,
    Agent.tools_of resp <> [] /\
    (named_calls resp = [] ->
     Agent.tools_of resp = [{| name := "wait"; fargs := [("ms", JsNumber 1500)] |}]) /\
    (named_calls resp <> [] -> Agent.tools_of resp = named_calls resp).
Proof.
  intros resp. destruct (tools_of_cases resp) as [(E & T)|(N & T)]; rewrite T.
  - split; [discriminate|]. split; [reflexivity|]. intros H. contradiction.
  - split; [exact N|]. split; [intros H; contradiction|reflexivity].
Qed.

(** ** Saying "stop" *)




(** ** Witnesses *)

Lemma wait_is_bounded_witness :
  AgentTools.wait_ms (fun _ => None) [("ms", JsNumber 400)] = Some 400%Z /\
  AgentTools.wait_ms (fun _ => None) [("ms", JsNumber 9000)] = Some 5000%Z /\
  AgentTools.wait_ms (fun _ => None) [("ms", JsString "soon")] = None /\
  AgentTools.wait_ms (fun _ => None) [] = Some 1000%Z.
Proof.
  split; [|split; [|split]].
  - destruct (proj1 (wait_is_bounded (fun _ => None) [("ms", JsNumber 400)])
                    400%Z eq_refl) as (ms & E & _ & _ & H).
    rewrite E. f_equal. apply H. lia.
  - destruct (proj1 (wait_is_bounded (fun _ => None) [("ms", JsNumber 9000)])
                    9000%Z eq_refl) as (ms & E & _ & H & _).
    rewrite E, H. reflexivity.
  - apply (proj1 (proj2 (wait_is_bounded (fun _ => None)
                                          [("ms", JsString "soon")]))).
    reflexivity.
  - apply (proj2 (proj2 (wait_is_bounded (fun _ => None) []))). reflexivity.
Defined.

Lemma flee_keeps_a_distance_witness :
  AgentTools.flee_distance (fun _ => None) [("minDistance", JsNumber 20)] = Some 20%Z.
Proof.
  destruct (flee_keeps_a_distance (fun _ => None) [("minDistance", JsNumber 20)])
    as (d & E & _ & _ & _ & H).
  rewrite E. f_equal. apply (H 20%Z eq_refl). lia.
Defined.

Lemma say_is_cut_short_witness :
  AgentTools.say_chat [("text", JsString "hello")] = ["hello"] /\
  AgentTools.say_chat [] = [].
Proof.
  destruct (say_is_cut_short [("text", JsString "hello")]) as (_ & _ & H & _).
  destruct (say_is_cut_short []) as (_ & _ & _ & _ & H').
  split; [apply H; cbn; lia|apply H'; reflexivity].
Defined.

Lemma getFirstEdible_is_the_first_match_witness :
  AgentTools.getFirstEdible haunted ["apple"] = Some "bread" /\
  In "bread" (inventory haunted).
Proof.
  pose proof (getFirstEdible_is_the_first_match haunted ["apple"]) as H.
  change (AgentTools.getFirstEdible haunted ["apple"]) with (Some "bread") in H.
  split; [reflexivity|exact (proj1 H)].
Defined.

Lemma decide_always_returns_a_tool_witness :
  Agent.tools_of (Some [None; Some [None]]) =
    [{| name := "wait"; fargs := [("ms", JsNumber 1500)] |}] /\
  Agent.tools_of idle_talk = [{| name := "dance"; fargs := [] |}].
Proof.
  split.
  - apply (proj1 (proj2 (decide_always_returns_a_tool (Some [None; Some [None]])))).
    reflexivity.
  - rewrite (proj2 (proj2 (decide_always_returns_a_tool idle_talk)));
      [reflexivity|discriminate].
Defined.


(** * Beyond the claims: AiBot.scan *)

Lemma same_spec p q : Scan.same p q = true <-> p = q.
Proof.
  destruct p as [[x y] z], q as [[x' y'] z']. unfold Scan.same.
  rewrite !andb_true_iff, !Z.eqb_eq. split.
  - intros [[-> ->] ->]. reflexivity.
  - intros H. injection H as -> -> ->. auto.
Qed.

Lemma same_refl p : Scan.same p p = true.
Proof. apply same_spec. reflexivity. Qed.

Lemma dist_center c : Scan.dist c c = 0%Z.
Proof. destruct c as [[x y] z]. unfold Scan.dist. lia. Qed.

Lemma dist_offset p c d :
  In d Scan.DIRECTIONS -> (Scan.dist (Scan.offset p d) c <= Scan.dist p c + 1)%Z.
Proof.
  destruct p as [[x y] z], c as [[cx cy] cz]. unfold Scan.DIRECTIONS.
  intros [<-|[<-|[<-|[<-|[<-|[<-|[]]]]]]]; unfold Scan.offset, Scan.dist; lia.
Qed.

Lemma offset_back p d :
  In d Scan.DIRECTIONS ->
  exists d', In d' Scan.DIRECTIONS /\ Scan.offset (Scan.offset p d) d' = p.
Proof.
  destruct p as [[x y] z]. unfold Scan.DIRECTIONS.
  intros [<-|[<-|[<-|[<-|[<-|[<-|[]]]]]]].
  - exists (-1, 0, 0)%Z. split; [cbn; auto|]. unfold Scan.offset. repeat f_equal; lia.
  - exists (1, 0, 0)%Z. split; [cbn; auto|]. unfold Scan.offset. repeat f_equal; lia.
  - exists (0, 0, -1)%Z. split; [cbn; auto 7|]. unfold Scan.offset. repeat f_equal; lia.
  - exists (0, 0, 1)%Z. split; [cbn; auto 7|]. unfold Scan.offset. repeat f_equal; lia.
  - exists (0, -1, 0)%Z. split; [cbn; auto 7|]. unfold Scan.offset. repeat f_equal; lia.
  - exists (0, 1, 0)%Z. split; [cbn; auto 7|]. unfold Scan.offset. repeat f_equal; lia.
Qed.

Lemma reached_near w c p : Scan.reached w c p -> (Scan.dist p c <= 11)%Z.
Proof.
  intros [|q d R E D].
  - rewrite dist_center. lia.
  - pose proof (dist_offset q c d D) as H. unfold Scan.expands in E.
    destruct (w q) as [blk|]; [|discriminate].
    apply andb_true_iff in E. destruct E as (E & _).
    apply Z.leb_le in E. unfold Scan.SCAN_RADIUS in E. lia.
Qed.

(** *** The cube that bounds the fill *)

Lemma In_sweep r d : (0 <= r)%Z -> In d (sweep r) <-> (- r <= d <= r)%Z.
Proof.
  intros R. unfold sweep. rewrite in_map_iff. split.
  - intros (n & <- & H). apply in_seq in H. lia.
  - intros H. exists (Z.to_nat (d + r)). split; [lia|]. apply in_seq. lia.
Qed.

Lemma length_sweep r : List.length (sweep r) = Z.to_nat (2 * r + 1).
Proof. unfold sweep. rewrite length_map, length_seq. reflexivity. Qed.

Lemma NoDup_map_injective {A B} (f : A -> B) l :
  (forall x y, f x = f y -> x = y) -> NoDup l -> NoDup (map f l).
Proof.
  intros Inj N. induction N as [|x l Hx N IH]; cbn [map]; constructor; [|exact IH].
  intros H. apply in_map_iff in H. destruct H as (y & E & Hy).
  apply Inj in E. subst y. exact (Hx Hy).
Qed.

Lemma NoDup_sweep r : NoDup (sweep r).
Proof.
  unfold sweep. apply NoDup_map_injective; [|apply seq_NoDup].
  intros n m H. lia.
Qed.

Lemma In_box c p : (Scan.dist p c <= 11)%Z -> In p (Scan.box c).
Proof.
  destruct p as [[x y] z], c as [[cx cy] cz]. unfold Scan.dist. intros H.
  unfold Scan.box. apply in_flat_map. exists (x - cx)%Z.
  split; [apply In_sweep; lia|]. apply in_flat_map. exists (y - cy)%Z.
  split; [apply In_sweep; lia|]. apply in_map_iff. exists (z - cz)%Z.
  split; [|apply In_sweep; lia]. unfold Scan.offset. repeat f_equal; lia.
Qed.

Lemma length_flat_map_const {A B} (f : A -> list B) k l :
  (forall x, List.length (f x) = k) ->
  List.length (flat_map f l) = List.length l * k.
Proof.
  intros H. induction l as [|x l IH]; [reflexivity|].
  cbn [flat_map]. rewrite length_app, H, IH. cbn [List.length]. lia.
Qed.

Lemma length_box c : List.length (Scan.box c) = 23 * 23 * 23.
Proof.
  unfold Scan.box.
  rewrite (length_flat_map_const _ (23 * 23)).
  - rewrite length_sweep. reflexivity.
  - intros dx. rewrite (length_flat_map_const _ 23).
    + rewrite length_sweep. reflexivity.
    + intros dy. rewrite length_map, length_sweep. reflexivity.
Qed.

Lemma reached_few w c l :
  NoDup l -> (forall q, In q l -> Scan.reached w c q) ->
  List.length l <= 23 * 23 * 23.
Proof.
  intros N H. rewrite <- (length_box c). apply NoDup_incl_length; [exact N|].
  intros q Hq. apply In_box, (reached_near w), H, Hq.
Qed.

(** *** One turn of the loop *)

Lemma visits_spec pos dirs : forall v,
  exists added,
    Scan.seen (fold_left (Scan.visit pos) dirs v) = Scan.seen v ++ added /\
    Scan.queues (fold_left (Scan.visit pos) dirs v) = Scan.queues v ++ added /\
    Scan.solidBlocksAroundMe (fold_left (Scan.visit pos) dirs v) =
      Scan.solidBlocksAroundMe v /\
    Scan.emptyBlocksAroundMe (fold_left (Scan.visit pos) dirs v) =
      Scan.emptyBlocksAroundMe v /\
    (NoDup (Scan.seen v) -> NoDup (Scan.seen v ++ added)) /\
    (forall d, In d dirs -> In (Scan.offset pos d) (Scan.seen v ++ added)) /\
    (forall q, In q added -> exists d, In d dirs /\ q = Scan.offset pos d).
Proof.
  induction dirs as [|d dirs IH]; intros v.
  - exists []. cbn [fold_left]. rewrite !app_nil_r.
    repeat (split; [reflexivity|]). split; [auto|]. split; intros q [].
  - cbn [fold_left]. destruct (IH (Scan.visit pos v d))
      as (added & Hs & Hq & Ho & He & Hn & Hin & Hof).
    unfold Scan.visit in *.
    destruct (existsb (Scan.same (Scan.offset pos d)) (Scan.seen v)) eqn:E.
    + exists added. repeat (split; [assumption|]). split; [|intros q Hq'].
      * intros d' [<-|Hd]; [|auto]. apply in_or_app. left.
        apply existsb_exists in E. destruct E as (q & Hq1 & Hq2).
        apply same_spec in Hq2. subst q. exact Hq1.
      * destruct (Hof q Hq') as (d' & Hd & ->). exists d'. split; [right|]; auto.
    + cbn [Scan.seen Scan.queues Scan.solidBlocksAroundMe
           Scan.emptyBlocksAroundMe] in *.
      exists (Scan.offset pos d :: added).
      rewrite Hs, Hq, <- !app_assoc. cbn [app].
      repeat (split; [first [reflexivity|assumption]|]).
      assert (Hnew : ~ In (Scan.offset pos d) (Scan.seen v)).
      { intros Hi. assert (T : existsb (Scan.same (Scan.offset pos d)) (Scan.seen v) = true).
        { apply existsb_exists. exists (Scan.offset pos d). split; [exact Hi|apply same_refl]. }
        rewrite T in E. discriminate. }
      split; [|split].
      * intros N. rewrite <- app_assoc in Hn. cbn [app] in Hn. apply Hn.
        apply NoDup_app; [exact N|repeat constructor; intros []|].
        intros q Hq1 [<-|[]]. exact (Hnew Hq1).
      * rewrite <- app_assoc in Hin. cbn [app] in Hin.
        intros d' [<-|Hd]; [|auto]. apply in_or_app. right. left. reflexivity.
      * intros q [<-|Hq']; [exists d; split; [left|]; reflexivity|].
        destruct (Hof q Hq') as (d' & Hd & ->). exists d'. split; [right|]; auto.
Qed.

Lemma body_spec w c pos v :
  exists added,
    Scan.seen (Scan.body w c pos v) = Scan.seen v ++ added /\
    Scan.queues (Scan.body w c pos v) = Scan.queues v ++ added /\
    Scan.solidBlocksAroundMe (Scan.body w c pos v) =
      Scan.solidBlocksAroundMe v ++ Scan.solid_of w c pos /\
    Scan.emptyBlocksAroundMe (Scan.body w c pos v) =
      Scan.emptyBlocksAroundMe v ++ Scan.empty_of w c pos /\
    (NoDup (Scan.seen v) -> NoDup (Scan.seen v ++ added)) /\
    (Scan.expands w c pos = true ->
     forall d, In d Scan.DIRECTIONS -> In (Scan.offset pos d) (Scan.seen v ++ added)) /\
    (forall q, In q added ->
               Scan.expands w c pos = true /\
               exists d, In d Scan.DIRECTIONS /\ q = Scan.offset pos d).
Proof.
  assert (Still : exists added : list Scan.Pos,
             Scan.seen v = Scan.seen v ++ added /\
             Scan.queues v = Scan.queues v ++ added /\
             Scan.solidBlocksAroundMe v = Scan.solidBlocksAroundMe v ++ [] /\
             Scan.emptyBlocksAroundMe v = Scan.emptyBlocksAroundMe v ++ [] /\
             (NoDup (Scan.seen v) -> NoDup (Scan.seen v ++ added)) /\
             (false = true ->
              forall d, In d Scan.DIRECTIONS ->
                        In (Scan.offset pos d) (Scan.seen v ++ added)) /\
             (forall q, In q added ->
                        false = true /\
                        exists d, In d Scan.DIRECTIONS /\ q = Scan.offset pos d)).
  { exists []. rewrite !app_nil_r. repeat (split; [reflexivity|]).
    split; [auto|]. split; [discriminate|intros q []]. }
  unfold Scan.body, Scan.solid_of, Scan.empty_of, Scan.expands.
  destruct (w pos) as [blk|]; [|exact Still].
  destruct (Scan.dist pos c <=? Scan.SCAN_RADIUS)%Z eqn:R.
  - destruct (String.eqb (Scan.boundingBox blk) "block") eqn:B.
    + assert (Em : String.eqb (Scan.boundingBox blk) "empty" = false).
      { apply String.eqb_eq in B. rewrite B. reflexivity. }
      rewrite Em, andb_false_r. cbn [andb Scan.seen Scan.queues
        Scan.solidBlocksAroundMe Scan.emptyBlocksAroundMe].
      exists []. rewrite !app_nil_r. repeat (split; [reflexivity|]).
      split; [auto|]. split; [discriminate|intros q []].
    + destruct (String.eqb (Scan.boundingBox blk) "empty") eqn:Em.
      * rewrite andb_true_r. cbn [andb].
        destruct (Scan.dist pos c <=? Scan.AIR_SCAN_RADIUS)%Z eqn:A.
        -- destruct (visits_spec pos Scan.DIRECTIONS
                       {| Scan.seen := Scan.seen v; Scan.queues := Scan.queues v;
                          Scan.solidBlocksAroundMe := Scan.solidBlocksAroundMe v;
                          Scan.emptyBlocksAroundMe :=
                            Scan.emptyBlocksAroundMe v ++ [(pos, Scan.displayName blk)] |})
             as (added & Hs & Hq & Ho & He & Hn & Hin & Hof).
           cbn [Scan.seen Scan.queues Scan.solidBlocksAroundMe
                Scan.emptyBlocksAroundMe] in *.
           exists added. rewrite app_nil_r. repeat (split; [assumption|]).
           split; [intros _; exact Hin|]. intros q Hq'. split; [reflexivity|auto].
        -- destruct (visits_spec pos Scan.DIRECTIONS v)
             as (added & Hs & Hq & Ho & He & Hn & Hin & Hof).
           exists added. rewrite !app_nil_r. repeat (split; [assumption|]).
           split; [intros _; exact Hin|]. intros q Hq'. split; [reflexivity|auto].
      * rewrite !andb_false_r. exact Still.
  - assert (A : (Scan.dist pos c <=? Scan.AIR_SCAN_RADIUS)%Z = false).
    { apply Z.leb_gt. apply Z.leb_gt in R.
      unfold Scan.SCAN_RADIUS, Scan.AIR_SCAN_RADIUS in *. lia. }
    rewrite A. cbn [andb]. exact Still.
Qed.

Lemma firstn_S_app {A} (r : list A) x : forall l i,
  nth_error l i = Some x -> firstn (S i) (l ++ r) = firstn i l ++ [x].
Proof.
  induction l as [|a l IH]; intros [|i] H; cbn in H; try discriminate.
  - injection H as ->. reflexivity.
  - cbn [firstn app]. cbn [firstn] in IH. rewrite (IH i H). reflexivity.
Qed.

Lemma Inv_init w c :
  Scan.Inv w c 0 {| Scan.seen := []; Scan.queues := [c];
                    Scan.solidBlocksAroundMe := [];
                    Scan.emptyBlocksAroundMe := [] |}.
Proof.
  unfold Scan.Inv. cbn. split; [reflexivity|]. split; [constructor|].
  split; [lia|]. split; [reflexivity|]. split; [reflexivity|].
  split; [intros p []|]. split; [|intros q []]. intros q [<-|[]]. constructor.
Qed.

Lemma Inv_step w c i v pos :
  Scan.Inv w c i v -> nth_error (Scan.queues v) i = Some pos ->
  Scan.Inv w c (S i) (Scan.body w c pos v).
Proof.
  intros (Hq & Hn & Hi & Hs & He & Hf & Hr & Hg) H.
  destruct (body_spec w c pos v) as (added & Bs & Bq & Bo & Be & Bn & Bin & Bof).
  unfold Scan.Inv. rewrite Bs, Bq, Bo, Be, (firstn_S_app added pos _ _ H).
  rewrite !flat_map_app. cbn [flat_map]. rewrite !app_nil_r, <- Hs, <- He.
  split; [rewrite Hq; reflexivity|]. split; [auto|].
  split. { assert (i < List.length (Scan.queues v))
             by (apply nth_error_Some; rewrite H; discriminate).
           rewrite length_app. lia. }
  split; [reflexivity|]. split; [reflexivity|]. split; [|split].
  - intros p Hp E d Hd. apply in_app_or in Hp. destruct Hp as [Hp|[<-|[]]].
    + apply in_or_app. left. eauto.
    + auto.
  - intros q Hq'. apply in_app_or in Hq'. destruct Hq' as [Hq'|Hq']; [auto|].
    destruct (Bof q Hq') as (E & d & Hd & ->).
    apply Scan.reached_next; [|assumption..]. apply Hr, (nth_error_In _ _ H).
  - intros q Hq'. apply in_app_or in Hq'. destruct Hq' as [Hq'|Hq'].
    + destruct (Hg q Hq') as (p & d & Hp & E & Hd & ->).
      exists p, d. split; [apply in_or_app; left; exact Hp|auto].
    + destruct (Bof q Hq') as (E & d & Hd & ->).
      exists pos, d. split; [apply in_or_app; left; exact (nth_error_In _ _ H)|auto].
Qed.

Lemma Inv_done w c i v :
  Scan.Inv w c i v -> nth_error (Scan.queues v) i = None ->
  Scan.Inv w c (List.length (Scan.queues v)) v.
Proof.
  intros I H. apply nth_error_None in H.
  assert (Hi : i <= List.length (Scan.queues v)) by apply I.
  replace (List.length (Scan.queues v)) with i by lia. exact I.
Qed.

Lemma Inv_bound w c i v :
  Scan.Inv w c i v -> List.length (Scan.queues v) <= Scan.ENOUGH.
Proof.
  intros (Hq & Hn & _ & _ & _ & _ & Hr & _). rewrite Hq. cbn [List.length].
  unfold Scan.ENOUGH. apply le_n_S. apply (reached_few w c); [exact Hn|].
  intros q Hq'. apply Hr. rewrite Hq. right. exact Hq'.
Qed.

Lemma loop_sound w c : forall fuel i v v',
  Scan.Inv w c i v -> Scan.loop fuel w c i v = Some v' ->
  Scan.Inv w c (List.length (Scan.queues v')) v'.
Proof.
  induction fuel as [|fuel IH]; intros i v v' I H; cbn [Scan.loop] in H;
    destruct (nth_error (Scan.queues v) i) as [pos|] eqn:E; try discriminate.
  - injection H as <-. exact (Inv_done _ _ _ _ I E).
  - exact (IH _ _ _ (Inv_step _ _ _ _ _ I E) H).
  - injection H as <-. exact (Inv_done _ _ _ _ I E).
Qed.

Lemma loop_total w c : forall fuel i v,
  Scan.Inv w c i v -> Scan.ENOUGH - i <= fuel ->
  exists v', Scan.loop fuel w c i v = Some v'.
Proof.
  induction fuel as [|fuel IH]; intros i v I F; cbn [Scan.loop];
    destruct (nth_error (Scan.queues v) i) as [pos|] eqn:E; eauto.
  - pose proof (Inv_bound _ _ _ _ I) as B.
    assert (i < List.length (Scan.queues v))
      by (apply nth_error_Some; rewrite E; discriminate).
    lia.
  - apply IH; [exact (Inv_step _ _ _ _ _ I E)|lia].
Qed.

Lemma loop_more_fuel w c : forall fuel fuel' i v v',
  Scan.loop fuel w c i v = Some v' -> fuel <= fuel' ->
  Scan.loop fuel' w c i v = Some v'.
Proof.
  induction fuel as [|fuel IH]; intros fuel' i v v' H F;
    destruct fuel' as [|fuel']; cbn [Scan.loop] in *;
    destruct (nth_error (Scan.queues v) i) as [pos|]; try discriminate;
    try exact H; try lia.
  apply (IH fuel'); [exact H|lia].
Qed.

Lemma scan_inv fuel w head v :
  Scan.scan fuel w head = Some (inr v) ->
  Scan.Inv w head (List.length (Scan.queues v)) v.
Proof.
  unfold Scan.scan. destruct (w head); [|discriminate].
  destruct (Scan.loop fuel w head 0 _) as [v'|] eqn:L; [|discriminate].
  cbn [option_map]. intros H. injection H as <-.
  exact (loop_sound _ _ _ _ _ _ (Inv_init w head) L).
Qed.

(** X15: [scan] always comes to an end.  The [while] loop over the growing
    queue takes at most 23 * 23 * 23 + 1 turns, whatever the world looks
    like: with that many turns allowed, [scan] throws a TypeError when the
    block at the head is not loaded, returns otherwise, and more turns
    change nothing. *)
Theorem scan_always_ends :
  forall fuel w head,
    Scan.ENOUGH <= fuel ->
    (w head = None -> Scan.scan fuel w head = Some (inl (Foreign "TypeError"))) /\
    (w head <> None -> exists v, Scan.scan fuel w head = Some (inr v)) /\
    (forall fuel', fuel <= fuel' -> Scan.scan fuel' w head = Scan.scan fuel w head).
Proof.
  intros fuel w head F. unfold Scan.scan.
  destruct (w head) as [blk|].
  - destruct (loop_total w head fuel 0 _ (Inv_init w head)) as (v & L); [lia|].
    split; [discriminate|]. split.
    + intros _. exists v. rewrite L. reflexivity.
    + intros fuel' F'. rewrite (loop_more_fuel _ _ _ _ _ _ _ L F'), L. reflexivity.
  - split; [reflexivity|]. split; [intros N; contradiction N; reflexivity|reflexivity].
Qed.

Lemma queue_holds_the_reached w c v :
  Scan.Inv w c (List.length (Scan.queues v)) v ->
  forall p, Scan.reached w c p -> In p (Scan.queues v).
Proof.
  intros (Hq & _ & _ & _ & _ & Hf & _ & _) p R. rewrite firstn_all in Hf.
  induction R as [|p d R IH E D].
  - rewrite Hq. left. reflexivity.
  - rewrite Hq. right. exact (Hf p IH E d D).
Qed.

Lemma In_solid_of w c p q t :
  In (p, t) (Scan.solid_of w c q) <->
  p = q /\ (Scan.dist p c <= 10)%Z /\
  exists blk, w p = Some blk /\ Scan.boundingBox blk = "block" /\
              Scan.displayName blk = t.
Proof.
  unfold Scan.solid_of. split.
  - destruct (w q) as [blk|] eqn:W; [|intros []].
    destruct (_ && _) eqn:C; [|intros []].
    apply andb_true_iff in C. destruct C as (R & B).
    apply Z.leb_le in R. apply String.eqb_eq in B.
    intros [H|[]]. injection H as <- <-. eauto 7.
  - intros (<- & R & blk & W & B & <-). rewrite W.
    apply Z.leb_le in R. fold Scan.SCAN_RADIUS in R. rewrite R, B. left. reflexivity.
Qed.

Lemma In_empty_of w c p q t :
  In (p, t) (Scan.empty_of w c q) <->
  p = q /\ (Scan.dist p c <= 5)%Z /\
  exists blk, w p = Some blk /\ Scan.boundingBox blk = "empty" /\
              Scan.displayName blk = t.
Proof.
  unfold Scan.empty_of. split.
  - destruct (w q) as [blk|] eqn:W; [|intros []].
    destruct (_ && _) eqn:C; [|intros []].
    apply andb_true_iff in C. destruct C as (R & B).
    apply Z.leb_le in R. apply String.eqb_eq in B.
    intros [H|[]]. injection H as <- <-. eauto 7.
  - intros (<- & R & blk & W & B & <-). rewrite W.
    apply Z.leb_le in R. fold Scan.AIR_SCAN_RADIUS in R. rewrite R, B. left. reflexivity.
Qed.

(** X16: what [scan] reports is what the flood fill reaches, no more and no
    less.  The fill starts at the head and goes on through empty blocks
    within 10 blocks (Manhattan distance) of it.  A solid block is listed
    if and only if the fill reaches it within 10 blocks; an empty block if
    and only if the fill reaches it within 5 blocks; each with the display
    name the world gives it.  A block behind a wall is never listed. *)
Theorem scan_reports_what_the_fill_reaches :
  forall fuel w head v,
    Scan.scan fuel w head = Some (inr v) ->
    (forall p, In p (Scan.queues v) <-> Scan.reached w head p) /\
    (forall p t,
        In (p, t) (Scan.solidBlocksAroundMe v) <->
        Scan.reached w head p /\ (Scan.dist p head <= 10)%Z /\
        exists blk, w p = Some blk /\ Scan.boundingBox blk = "block" /\
                    Scan.displayName blk = t) /\
    (forall p t,
        In (p, t) (Scan.emptyBlocksAroundMe v) <->
        Scan.reached w head p /\ (Scan.dist p head <= 5)%Z /\
        exists blk, w p = Some blk /\ Scan.boundingBox blk = "empty" /\
                    Scan.displayName blk = t).
Proof.
  intros fuel w head v H. apply scan_inv in H.
  pose proof (queue_holds_the_reached _ _ _ H) as Q.
  destruct H as (Hq & _ & _ & Hs & He & _ & Hr & _). rewrite firstn_all in Hs, He.
  split; [intros p; split; auto|]. split.
  - intros p t. rewrite Hs, in_flat_map. split.
    + intros (q & Hq' & Hin). apply In_solid_of in Hin.
      destruct Hin as (-> & Hin). auto.
    + intros (R & Hin). exists p. split; [auto|]. apply In_solid_of. auto.
  - intros p t. rewrite He, in_flat_map. split.
    + intros (q & Hq' & Hin). apply In_empty_of in Hin.
      destruct Hin as (-> & Hin). auto.
    + intros (R & Hin). exists p. split; [auto|]. apply In_empty_of. auto.
Qed.

(** *** How often a position is listed *)

Lemma listed_app p l1 l2 :
  Scan.listed p (l1 ++ l2) = Scan.listed p l1 + Scan.listed p l2.
Proof. unfold Scan.listed. rewrite filter_app, length_app. reflexivity. Qed.

Lemma listed_solid_of w c p q :
  Scan.listed p (Scan.solid_of w c q) <= 1 /\
  (q <> p -> Scan.listed p (Scan.solid_of w c q) = 0).
Proof.
  unfold Scan.solid_of, Scan.listed.
  destruct (w q) as [blk|]; [|cbn; split; [lia|reflexivity]].
  destruct (_ && _); [|cbn; split; [lia|reflexivity]].
  cbn [filter fst]. destruct (Scan.same q p) eqn:E; cbn; split; try lia; try reflexivity.
  intros N. apply same_spec in E. contradiction.
Qed.

Lemma listed_empty_of w c p q :
  Scan.listed p (Scan.empty_of w c q) <= 1 /\
  (q <> p -> Scan.listed p (Scan.empty_of w c q) = 0).
Proof.
  unfold Scan.empty_of, Scan.listed.
  destruct (w q) as [blk|]; [|cbn; split; [lia|reflexivity]].
  destruct (_ && _); [|cbn; split; [lia|reflexivity]].
  cbn [filter fst]. destruct (Scan.same q p) eqn:E; cbn; split; try lia; try reflexivity.
  intros N. apply same_spec in E. contradiction.
Qed.

Lemma listed_absent (f : Scan.Pos -> list (Scan.Pos * string)) p l :
  (forall q, q <> p -> Scan.listed p (f q) = 0) ->
  ~ In p l -> Scan.listed p (flat_map f l) = 0.
Proof.
  intros F. induction l as [|q l IH]; intros N; [reflexivity|].
  cbn [flat_map]. rewrite listed_app, IH, F; [reflexivity| |].
  - intros ->. apply N. left. reflexivity.
  - intros H. apply N. right. exact H.
Qed.

Lemma listed_once (f : Scan.Pos -> list (Scan.Pos * string)) p l :
  (forall q, q <> p -> Scan.listed p (f q) = 0) ->
  NoDup l ->
  Scan.listed p (flat_map f l) =
    if existsb (Scan.same p) l then Scan.listed p (f p) else 0.
Proof.
  intros F N. induction N as [|q l Hq N IH]; [reflexivity|].
  cbn [flat_map existsb]. rewrite listed_app.
  destruct (Scan.same p q) eqn:E.
  - apply same_spec in E. subst q. cbn [orb].
    rewrite (listed_absent f p l F Hq). lia.
  - cbn [orb]. rewrite IH, F; [reflexivity|].
    intros ->. rewrite same_refl in E. discriminate.
Qed.

Lemma listed_head_itself w head blk :
  w head = Some blk -> Scan.boundingBox blk = "empty" ->
  Scan.listed head (Scan.empty_of w head head) = 1.
Proof.
  intros W B. unfold Scan.empty_of, Scan.listed.
  rewrite W, dist_center, B. cbn. rewrite same_refl. reflexivity.
Qed.

Lemma listed_head_expands w head :
  Scan.listed head (Scan.empty_of w head head) = 1 ->
  Scan.expands w head head = true.
Proof.
  unfold Scan.empty_of, Scan.expands, Scan.listed.
  destruct (w head) as [blk|]; [|discriminate].
  rewrite dist_center. cbn [Z.leb Z.compare andb Scan.AIR_SCAN_RADIUS Scan.SCAN_RADIUS].
  destruct (String.eqb (Scan.boundingBox blk) "empty"); [reflexivity|discriminate].
Qed.

Lemma expanding_is_not_solid w c p :
  Scan.expands w c p = true -> Scan.solid_of w c p = [].
Proof.
  unfold Scan.expands, Scan.solid_of. destruct (w p) as [blk|]; [|reflexivity].
  intros E. apply andb_true_iff in E. destruct E as (_ & B).
  apply String.eqb_eq in B. rewrite B, andb_false_r. reflexivity.
Qed.

Lemma stuck w c :
  Scan.expands w c c = false -> forall p, Scan.reached w c p -> p = c.
Proof.
  intros E p R. induction R as [|p d R IH E' D]; [reflexivity|].
  subst p. rewrite E in E'. discriminate.
Qed.

Lemma In_existsb_same p l : existsb (Scan.same p) l = true <-> In p l.
Proof.
  rewrite existsb_exists. split.
  - intros (q & Hq & E). apply same_spec in E. subst q. exact Hq.
  - intros H. exists p. split; [exact H|apply same_refl].
Qed.

(** X17: every block is listed once, except the head's own block.  [scan]
    never puts the start of the fill into [seen], so the first empty
    neighbour puts the head on the queue again.  A position other than the
    head is listed at most once in each list, and the head's block at most
    once among the solid blocks; but the head's block is listed twice
    among the empty blocks exactly when the head is in an empty block that
    has an empty neighbour. *)
Theorem scan_lists_the_head_twice :
  forall fuel w head v,
    Scan.scan fuel w head = Some (inr v) ->
    (forall p, p <> head ->
               Scan.listed p (Scan.solidBlocksAroundMe v) <= 1 /\
               Scan.listed p (Scan.emptyBlocksAroundMe v) <= 1) /\
    Scan.listed head (Scan.solidBlocksAroundMe v) <= 1 /\
    Scan.listed head (Scan.emptyBlocksAroundMe v) <= 2 /\
    (Scan.listed head (Scan.emptyBlocksAroundMe v) = 2 <->
     Scan.expands w head head = true /\
     exists d, In d Scan.DIRECTIONS /\
               Scan.expands w head (Scan.offset head d) = true).
Proof.
  intros fuel w head v H. apply scan_inv in H.
  destruct H as (Hq & Hn & _ & Hs & He & Hf & Hr & Hg).
  rewrite firstn_all in Hs, He, Hf. rewrite Hs, He, Hq. cbn [flat_map].
  pose proof (fun p =>
    listed_once _ p _ (fun q => proj2 (listed_solid_of w head p q)) Hn) as So.
  pose proof (fun p =>
    listed_once _ p _ (fun q => proj2 (listed_empty_of w head p q)) Hn) as Eo.
  assert (S1 : forall p,
    Scan.listed p (flat_map (Scan.solid_of w head) (Scan.seen v)) <= 1).
  { intros p. rewrite So. destruct (existsb _ _); [apply listed_solid_of|lia]. }
  assert (E1 : forall p,
    Scan.listed p (flat_map (Scan.empty_of w head) (Scan.seen v)) <= 1).
  { intros p. rewrite Eo. destruct (existsb _ _); [apply listed_empty_of|lia]. }
  pose proof (proj1 (listed_solid_of w head head head)) as S0.
  pose proof (proj1 (listed_empty_of w head head head)) as E0.
  split; [|split; [|split; [|split]]].
  - intros p N. rewrite !listed_app.
    rewrite (proj2 (listed_solid_of w head p head)) by congruence.
    rewrite (proj2 (listed_empty_of w head p head)) by congruence.
    split; [apply S1|apply E1].
  - rewrite listed_app. destruct (Scan.expands w head head) eqn:E.
    + rewrite (expanding_is_not_solid _ _ _ E). apply S1.
    + rewrite So. destruct (existsb (Scan.same head) (Scan.seen v)) eqn:X; [|lia].
      apply In_existsb_same in X. destruct (Hg head X) as (p & d & Hp & Ep & _).
      rewrite (stuck w head E p (Hr p Hp)) in Ep. congruence.
  - rewrite listed_app. pose proof (E1 head). lia.
  - rewrite listed_app. intros Two. pose proof (E1 head) as E1h.
    assert (A : Scan.listed head (Scan.empty_of w head head) = 1) by lia.
    split; [exact (listed_head_expands _ _ A)|].
    rewrite Eo in Two.
    destruct (existsb (Scan.same head) (Scan.seen v)) eqn:X; [|lia].
    apply In_existsb_same in X. destruct (Hg head X) as (p & d & Hp & Ep & D & Eq).
    destruct (offset_back p d D) as (d' & D' & Back).
    exists d'. split; [exact D'|]. rewrite <- Eq in Back. rewrite Back. exact Ep.
  - intros (E & d & D & Ed). rewrite listed_app.
    assert (In1 : In (Scan.offset head d) (Scan.queues v)).
    { rewrite Hq. right.
      apply (Hf head); [rewrite Hq; left; reflexivity|exact E|exact D]. }
    destruct (offset_back head d D) as (d' & D' & Back).
    pose proof (Hf _ In1 Ed d' D') as In2. rewrite Back in In2.
    apply In_existsb_same in In2. rewrite Eo, In2.
    unfold Scan.expands in E. destruct (w head) as [blk|] eqn:W; [|discriminate].
    apply andb_true_iff in E. destruct E as (_ & B). apply String.eqb_eq in B.
    rewrite (listed_head_itself w head blk W B). reflexivity.
Qed.

Lemma scan_always_ends_witness :
  exists v, Scan.scan Scan.ENOUGH pocket (0, 64, 0)%Z = Some (inr v).
Proof.
  apply (proj1 (proj2 (scan_always_ends Scan.ENOUGH pocket (0, 64, 0)%Z (le_n _)))).
  discriminate.
Defined.

Lemma scan_reports_what_the_fill_reaches_witness :
  Scan.reached pocket (0, 64, 0)%Z (0, 66, 0)%Z /\
  In ((0, 66, 0)%Z, "Stone") (Scan.solidBlocksAroundMe pocket_scan).
Proof.
  destruct (scan_reports_what_the_fill_reaches 20 pocket (0, 64, 0)%Z pocket_scan)
    as (Q & S & _); [vm_compute; reflexivity|].
  assert (R : Scan.reached pocket (0, 64, 0)%Z (0, 66, 0)%Z).
  { apply Q. vm_compute. auto 20. }
  split; [exact R|]. apply S. split; [exact R|]. split; [vm_compute; discriminate|].
  eexists. split; [reflexivity|]. split; reflexivity.
Defined.

Lemma scan_lists_the_head_twice_witness :
  Scan.listed (0, 64, 0)%Z (Scan.emptyBlocksAroundMe pocket_scan) = 2.
Proof.
  destruct (scan_lists_the_head_twice 20 pocket (0, 64, 0)%Z pocket_scan)
    as (_ & _ & _ & H); [vm_compute; reflexivity|].
  apply H. split; [reflexivity|]. exists (0, 1, 0)%Z. split; [|reflexivity].
  cbn. auto 10.
Defined.

(** * Beyond the claims: the cycle from its first line *)













(** * Beyond the claims: the first bot's sense *)

Lemma listed_none p l :
  (forall r, In r l -> fst r <> p) -> Scan.listed p l = 0.
Proof.
  unfold Scan.listed. induction l as [|r l IH]; intros H; [reflexivity|].
  cbn [filter]. destruct (Scan.same (fst r) p) eqn:E.
  - apply same_spec in E. exfalso. apply (H r); [left; reflexivity|exact E].
  - apply IH. intros r' Hr. apply H. right. exact Hr.
Qed.

Lemma listed_pick (g : Z -> list (Scan.Pos * string)) p a xs :
  NoDup xs -> In a xs ->
  (forall b, b <> a -> Scan.listed p (g b) = 0) ->
  Scan.listed p (flat_map g xs) = Scan.listed p (g a).
Proof.
  intros N Ha Z0. induction N as [|x xs Hx N IH]; [destruct Ha|].
  cbn [flat_map]. rewrite listed_app. destruct (Z.eq_dec x a) as [->|Ne].
  - assert (T : Scan.listed p (flat_map g xs) = 0); [|lia].
    clear IH Ha N. induction xs as [|y xs IH]; [reflexivity|].
    cbn [flat_map]. rewrite listed_app, IH, Z0; [reflexivity| |].
    + intros ->. apply Hx. left. reflexivity.
    + intros H. apply Hx. right. exact H.
  - rewrite (Z0 x Ne). destruct Ha as [E|Ha]; [contradiction|]. apply IH, Ha.
Qed.

(** X18: the first bot lists the whole cube around it.  [sense] of bot.ts
    reports 11 * 11 * 11 = 1331 blocks on every cycle: each position
    within 5 blocks of the bot along every axis is listed exactly once,
    with the display name of its block, or as "empty" when no block is
    loaded there, and no other position is listed.  Unlike the flood fill
    of [scan], walls hide nothing. *)
Theorem sense_lists_the_whole_cube :
  forall w cx cy cz,
    List.length (SenseV1.blocks w (cx, cy, cz)) = 11 * 11 * 11 /\
    (forall x y z t,
        In ((x, y, z), t) (SenseV1.blocks w (cx, cy, cz)) <->
        (Z.abs (x - cx) <= 5 /\ Z.abs (y - cy) <= 5 /\ Z.abs (z - cz) <= 5)%Z /\
        t = SenseV1.type_at w (x, y, z)) /\
    (forall x y z,
        (Z.abs (x - cx) <= 5 /\ Z.abs (y - cy) <= 5 /\ Z.abs (z - cz) <= 5)%Z ->
        Scan.listed (x, y, z) (SenseV1.blocks w (cx, cy, cz)) = 1).
Proof.
  intros w cx cy cz. unfold SenseV1.blocks, SenseV1.SENSE_RADIUS.
  split; [|split].
  - rewrite (length_flat_map_const _ (11 * 11)).
    + rewrite length_sweep. reflexivity.
    + intros dx. rewrite (length_flat_map_const _ 11).
      * rewrite length_sweep. reflexivity.
      * intros dy. rewrite (length_flat_map_const _ 1).
        -- rewrite length_sweep. reflexivity.
        -- reflexivity.
  - intros x y z t. split.
    + intros H. apply in_flat_map in H. destruct H as (dx & Hx & H).
      apply in_flat_map in H. destruct H as (dy & Hy & H).
      apply in_flat_map in H. destruct H as (dz & Hz & [H|[]]).
      apply In_sweep in Hx, Hy, Hz; try lia.
      unfold Scan.offset in H. injection H as <- <- <- <-.
      split; [lia|reflexivity].
    + intros (R & ->). apply in_flat_map. exists (x - cx)%Z.
      split; [apply In_sweep; lia|]. apply in_flat_map. exists (y - cy)%Z.
      split; [apply In_sweep; lia|]. apply in_flat_map. exists (z - cz)%Z.
      split; [apply In_sweep; lia|]. left. unfold Scan.offset.
      replace (cx + (x - cx))%Z with x by lia.
      replace (cy + (y - cy))%Z with y by lia.
      replace (cz + (z - cz))%Z with z by lia. reflexivity.
  - intros x y z R.
    rewrite (listed_pick _ (x, y, z) (x - cx)%Z);
      [|apply NoDup_sweep|apply In_sweep; lia|].
    rewrite (listed_pick _ (x, y, z) (y - cy)%Z);
      [|apply NoDup_sweep|apply In_sweep; lia|].
    rewrite (listed_pick _ (x, y, z) (z - cz)%Z);
      [|apply NoDup_sweep|apply In_sweep; lia|].
    + unfold Scan.listed, Scan.offset. cbn [filter fst].
      replace (cx + (x - cx))%Z with x by lia.
      replace (cy + (y - cy))%Z with y by lia.
      replace (cz + (z - cz))%Z with z by lia.
      rewrite same_refl. reflexivity.
    + intros b Nb. apply listed_none. intros r [<-|[]]. cbn [fst Scan.offset].
      intros H. injection H as _ _ H. lia.
    + intros b Nb. apply listed_none. intros r H.
      apply in_flat_map in H. destruct H as (dz & _ & [<-|[]]).
      cbn [fst Scan.offset]. intros H. injection H as _ H _. lia.
    + intros b Nb. apply listed_none. intros r H.
      apply in_flat_map in H. destruct H as (dy & _ & H).
      apply in_flat_map in H. destruct H as (dz & _ & [<-|[]]).
      cbn [fst Scan.offset]. intros H. injection H as H _ _. lia.
Qed.

Lemma sense_lists_the_whole_cube_witness :
  In ((5, 59, -5)%Z, "empty") (SenseV1.blocks pocket (0, 64, 0)%Z) /\
  Scan.listed (0, 65, 0)%Z (SenseV1.blocks pocket (0, 64, 0)%Z) = 1.
Proof.
  destruct (sense_lists_the_whole_cube pocket 0 64 0) as (_ & H & L). split.
  - apply H. split; [lia|reflexivity].
  - apply L. lia.
Defined.

(** * Beyond the claims: "stop" and "start" in chat *)

Lemma agent_step_keeps_alive ev l :
  Agent.controlLoopActive l = true -> Agent.stopRequested l = false ->
  ev <> Agent.chatStop ->
  AgentHost.is_live (Agent.phase (Agent.step ev l)) =
  AgentHost.is_live (Agent.phase l).
Proof.
  intros A S N. unfold Agent.step, Agent.run_tools, Agent.loop_test.
  destruct (Agent.phase l) as [| |rest] eqn:P;
    destruct ev as [[e|resp]|[|e]|]; try (contradiction N; reflexivity);
    cbn; rewrite ?A, ?S, ?P; cbn; try reflexivity.
  - destruct (tools_of_cases resp) as [(_ & T)|(M & T)]; rewrite T; [reflexivity|].
    destruct (named_calls resp); [contradiction M; reflexivity|reflexivity].
  - destruct rest; cbn; rewrite ?A, ?S; reflexivity.
Qed.

Lemma live_put k p : forall l q,
  nth_error l k = Some q -> AgentHost.is_live p = AgentHost.is_live q ->
  List.length (filter AgentHost.is_live (AgentHost.put k p l)) =
  List.length (filter AgentHost.is_live l).
Proof.
  induction k as [|k IH]; intros [|x l] q H E; cbn in H; try discriminate.
  - injection H as ->. cbn [AgentHost.put filter]. rewrite E.
    destruct (AgentHost.is_live q); reflexivity.
  - cbn [AgentHost.put filter]. destruct (AgentHost.is_live x); cbn [List.length];
      rewrite (IH l q H E); reflexivity.
Qed.

Lemma host_settles_keeps_alive k r h :
  AgentHost.controlLoopActive h = true ->
  AgentHost.live (AgentHost.step (AgentHost.settles k r) h) = AgentHost.live h /\
  AgentHost.controlLoopActive (AgentHost.step (AgentHost.settles k r) h) = true.
Proof.
  intros A. unfold AgentHost.step, AgentHost.live.
  destruct (nth_error (AgentHost.loops h) k) as [p|] eqn:E; [|auto].
  cbn [AgentHost.loops AgentHost.controlLoopActive]. split; [|exact A].
  apply (live_put _ _ _ p E).
  apply (agent_step_keeps_alive _ (AgentHost.view h p)); [exact A|reflexivity|].
  destruct r; discriminate.
Qed.

Lemma host_stop_start h :
  AgentHost.live (AgentHost.run [AgentHost.stop_said; AgentHost.start_said] h) =
    S (AgentHost.live h) /\
  AgentHost.controlLoopActive
    (AgentHost.run [AgentHost.stop_said; AgentHost.start_said] h) = true.
Proof.
  unfold AgentHost.run, AgentHost.live. cbn. rewrite filter_app, length_app.
  cbn. split; [lia|reflexivity].
Qed.

(** X19: "stop" followed by "start" does not restart the loop, it adds one.
    "stop" only clears [controlLoopActive]; a loop that is waiting for the
    planner or for a tool reads the flag when that wait is over.  If
    "start" is said before then, it sets the flag again and calls
    [loop()] once more, so one more loop is running than before; while the
    flag is set no loop ever leaves its [while], whatever the planner and
    the tools do, and a "start" changes nothing.  Said [n] times in a row,
    "stop", "start" leaves [n] more loops driving the same bot. *)
Theorem stop_then_start_adds_a_loop :
  forall h,
    (forall n,
        AgentHost.live
          (AgentHost.run
             (List.concat (repeat [AgentHost.stop_said; AgentHost.start_said] n)) h) =
          n + AgentHost.live h) /\
    (AgentHost.controlLoopActive h = true ->
     (forall k r,
         AgentHost.live (AgentHost.step (AgentHost.settles k r) h) =
           AgentHost.live h /\
         AgentHost.controlLoopActive (AgentHost.step (AgentHost.settles k r) h) =
           true) /\
     AgentHost.loops (AgentHost.step AgentHost.start_said h) = AgentHost.loops h).
Proof.
  intros h. split.
  - intros n. revert h. induction n as [|n IH]; intros h; [reflexivity|].
    cbn [repeat List.concat]. unfold AgentHost.run. rewrite fold_left_app.
    fold (AgentHost.run [AgentHost.stop_said; AgentHost.start_said] h).
    fold (AgentHost.run
            (List.concat (repeat [AgentHost.stop_said; AgentHost.start_said] n))
            (AgentHost.run [AgentHost.stop_said; AgentHost.start_said] h)).
    rewrite IH, (proj1 (host_stop_start h)). lia.
  - intros A. split; [intros k r; apply host_settles_keeps_alive, A|].
    unfold AgentHost.step. cbn. rewrite A. reflexivity.
Qed.

Lemma stop_then_start_adds_a_loop_witness :
  AgentHost.live
    (AgentHost.step (AgentHost.settles 0 (inl (inr None)))
       (AgentHost.run [AgentHost.stop_said; AgentHost.start_said] AgentHost.spawn))
  = 2.
Proof.
  destruct (stop_then_start_adds_a_loop
              (AgentHost.run [AgentHost.stop_said; AgentHost.start_said]
                             AgentHost.spawn)) as (_ & H).
  destruct (H eq_refl) as (K & _). rewrite (proj1 (K 0 (inl (inr None)))).
  destruct (stop_then_start_adds_a_loop AgentHost.spawn) as (N & _).
  exact (N 1).
Defined.

(** * Beyond the claims: what the agent senses *)

(** X20: [sense] reports the nearest hostile mob, and of several that are
    equally near the one it meets first.  The mob reported is hostile, no
    hostile mob is nearer, and every hostile mob met before it is strictly
    farther away; nothing is reported exactly when no entity is a hostile
    mob. *)
Theorem sense_reports_the_nearest_hostile :
  forall toLowerCase entities,
    match AgentSense.nearestHostile toLowerCase entities with
    | Some n =>
        AgentSense.hostile toLowerCase n = true /\
        exists before after,
          entities = before ++ n :: after /\
          (forall e, In e before -> AgentSense.hostile toLowerCase e = true ->
                     Qlt (AgentSense.distance n) (AgentSense.distance e)) /\
          (forall e, In e after -> AgentSense.hostile toLowerCase e = true ->
                     Qle (AgentSense.distance n) (AgentSense.distance e))
    | None =>
        forall e, In e entities -> AgentSense.hostile toLowerCase e = false
    end.
Proof.
  intros lower es. unfold AgentSense.nearestHostile.
  induction es as [|x es IH] using rev_ind; [intros e []|].
  rewrite fold_left_app. cbn [fold_left].
  destruct (fold_left (AgentSense.look lower) es None) as [n|];
    unfold AgentSense.look; destruct (AgentSense.hostile lower x) eqn:Hx.
  - destruct IH as (Hn & before & after & -> & Hb & Ha).
    destruct (Qlt_le_dec (AgentSense.distance x) (AgentSense.distance n)) as [L|L].
    + split; [exact Hx|]. exists (before ++ n :: after), []. split; [reflexivity|].
      split; [|intros e []]. intros e He Hh. apply in_app_or in He.
      destruct He as [He|[<-|He]].
      * apply (Qlt_trans _ (AgentSense.distance n)); auto.
      * exact L.
      * apply (Qlt_le_trans _ (AgentSense.distance n)); auto.
    + split; [exact Hn|]. exists before, (after ++ [x]).
      split; [rewrite <- app_assoc; reflexivity|]. split; [exact Hb|].
      intros e He Hh. apply in_app_or in He. destruct He as [He|[<-|[]]]; auto.
  - destruct IH as (Hn & before & after & -> & Hb & Ha).
    split; [exact Hn|]. exists before, (after ++ [x]).
    split; [rewrite <- app_assoc; reflexivity|]. split; [exact Hb|].
    intros e He Hh. apply in_app_or in He. destruct He as [He|[<-|[]]]; [auto|].
    rewrite Hx in Hh. discriminate.
  - split; [exact Hx|]. exists es, []. split; [reflexivity|].
    split; [|intros e []]. intros e He Hh. rewrite (IH e He) in Hh. discriminate.
  - intros e He. apply in_app_or in He. destruct He as [He|[<-|[]]]; auto.
Qed.

Lemma sense_reports_the_nearest_hostile_witness :
  AgentSense.nearestHostile (fun k => k) mobs =
    Some {| AgentSense.type := "mob"; AgentSense.kind := Some "zombie";
            AgentSense.distance := 4 # 1 |} /\
  AgentSense.hostile (fun k => k)
    {| AgentSense.type := "mob"; AgentSense.kind := Some "zombie";
       AgentSense.distance := 4 # 1 |} = true.
Proof.
  pose proof (sense_reports_the_nearest_hostile (fun k => k) mobs) as H.
  assert (E : AgentSense.nearestHostile (fun k => k) mobs =
              Some {| AgentSense.type := "mob"; AgentSense.kind := Some "zombie";
                      AgentSense.distance := 4 # 1 |}) by (vm_compute; reflexivity).
  rewrite E in H. split; [exact E|exact (proj1 H)].
Defined.
